(** * PathData: Cartesian / Frenet path container of the planning module

    A shallow embedding of [modules/planning/common/path/path_data.cc]
    and the properties of its conversions, setters and lookups.

    Modelling conventions.
    - The [double]s of the messages and of the conversions are real
      numbers ([R]): the conversions pass them on, and add up distances
      for the arc length; their properties below are about the structure
      of the computation, so that arithmetic is the exact one.
    - The [double]s of the lookup by reference arc length are binary64
      numbers ([float]): its result depends on rounded differences and
      on comparisons of them, which are modelled bit for bit.  The lookup
      takes the [s] fields of the stored Frenet points as the list of
      binary64 values they hold.
    - A [std::vector] is a [list]; [push_back] appends at the end, [back]
      is the last element, [at]/[PathPointAt] is a checked lookup.
    - A function returning [bool] and writing through an output pointer
      takes the pointee's old value and returns the flag with the new
      value of the pointee.
    - The [ReferenceLine] collaborator is an immutable object reached
      through a [const] pointer: a record of its three queries, held as an
      [option] ([None] is [nullptr]).
    - Loop counters are [nat]: vectors are assumed to hold fewer than
      [2^32] points, so the [uint32_t] counter never wraps.
    - [DCHECK_*] macros are debug-only assertions and have no effect on
      the state; they are recorded as comments. *)

From Stdlib Require Import Floats.
From Stdlib Require Import ZArith Reals Lra Lia List Bool Arith.
Import ListNotations.

Local Open Scope R_scope.

(** ** Protobuf messages and geometric value types *)

Module common.

(** [apollo::common::SLPoint]. *)
Record SLPoint : Type := mkSLPoint { sl_s : R; sl_l : R }.

(** [apollo::common::FrenetFramePoint]; every field defaults to [0]. *)
Record FrenetFramePoint : Type :=
  mkFrenetFramePoint { fp_s : R; fp_l : R; fp_dl : R; fp_ddl : R }.

Definition FrenetFramePoint_default : FrenetFramePoint :=
  mkFrenetFramePoint 0 0 0 0.

Definition fp_set_s (v : R) (p : FrenetFramePoint) : FrenetFramePoint :=
  mkFrenetFramePoint v (fp_l p) (fp_dl p) (fp_ddl p).

Definition fp_set_l (v : R) (p : FrenetFramePoint) : FrenetFramePoint :=
  mkFrenetFramePoint (fp_s p) v (fp_dl p) (fp_ddl p).

(** [apollo::common::PathPoint]; every field defaults to [0]. *)
Record PathPoint : Type :=
  mkPathPoint {
    pp_x : R; pp_y : R; pp_z : R;
    pp_theta : R; pp_kappa : R;
    pp_s : R;
    pp_dkappa : R; pp_ddkappa : R }.

Definition pp_set_s (v : R) (p : PathPoint) : PathPoint :=
  mkPathPoint (pp_x p) (pp_y p) (pp_z p) (pp_theta p) (pp_kappa p)
              v (pp_dkappa p) (pp_ddkappa p).

(** Modelled from the spec: [common::util::MakePathPoint] lives in
    [modules/common/util/util.h]; it fills position, heading, curvature
    and the two curvature rates of a fresh message and leaves the arc
    length at its default. *)
Definition MakePathPoint (x y z theta kappa dkappa ddkappa : R) : PathPoint :=
  mkPathPoint x y z theta kappa 0 dkappa ddkappa.

End common.

Module math.

(** [apollo::common::math::Vec2d]. *)
Record Vec2d : Type := mkVec2d { vx : R; vy : R }.

(** [Vec2d::operator-]. *)
Definition vsub (a b : Vec2d) : Vec2d :=
  mkVec2d (vx a - vx b) (vy a - vy b).

(** Modelled from the spec: [Vec2d::Length] lives in
    [modules/common/math/vec2d.h]; it is the Euclidean norm. *)
Definition Length (v : Vec2d) : R :=
  sqrt (vx v * vx v + vy v * vy v).

End math.

Import common math.

(** ** Path sequences *)

(** [DiscretizedPath]: a wrapper around [std::vector<common::PathPoint>]. *)
Record DiscretizedPath : Type :=
  mkDiscretizedPath { path_points : list PathPoint }.

(** [FrenetFramePath]: a wrapper around
    [std::vector<common::FrenetFramePoint>]. *)
Record FrenetFramePath : Type :=
  mkFrenetFramePath { points : list FrenetFramePoint }.

Definition NumOfPoints (p : DiscretizedPath) : nat :=
  length (path_points p).

(** [DiscretizedPath::PathPointAt] checks its index ([CHECK_LT]) and aborts
    the process when it is out of range: [None]. *)
Definition PathPointAt (p : DiscretizedPath) (index : nat) : option PathPoint :=
  nth_error (path_points p) index.

(** ** The reference-line collaborator *)

(** [ReferencePoint]: only the three accessors used by the conversion. *)
Record ReferencePoint : Type :=
  mkReferencePoint { heading : R; kappa : R; dkappa : R }.

(** [ReferenceLine]: the three queries of the collaborator.  The two
    projections return [bool] and write a fresh local: an [option]. *)
Record ReferenceLine : Type :=
  mkReferenceLine {
    get_point_in_cartesian_frame : SLPoint -> option Vec2d;
    get_reference_point : R -> ReferencePoint;
    get_point_in_frenet_frame : Vec2d -> option SLPoint }.

(** ** The container *)

Record PathData : Type :=
  mkPathData {
    discretized_path_ : DiscretizedPath;
    frenet_path_ : FrenetFramePath;
    reference_line_ : option ReferenceLine }.

Definition with_discretized_path (d : DiscretizedPath) (st : PathData) : PathData :=
  mkPathData d (frenet_path_ st) (reference_line_ st).

Definition with_frenet_path (f : FrenetFramePath) (st : PathData) : PathData :=
  mkPathData (discretized_path_ st) f (reference_line_ st).

Definition with_reference_line (r : option ReferenceLine) (st : PathData) : PathData :=
  mkPathData (discretized_path_ st) (frenet_path_ st) r.

(** [std::vector::back] of a vector known to be non-empty; the default is
    only returned on the empty vector, which the caller excludes. *)
Definition back (l : list PathPoint) : PathPoint :=
  last l (MakePathPoint 0 0 0 0 0 0 0).

Section Conversions.

(** [SLAnalyticTransformation::calculate_theta] and [calculate_kappa] are
    declared in [modules/planning/math/sl_analytic_transformation.h]. *)
Variable calculate_theta : R -> R -> R -> R -> R.
Variable calculate_kappa : R -> R -> R -> R -> R -> R.

(** The reference line the member pointer designates; the conversions are
    private and only reached after the [nullptr] test of the setters. *)
Variable rl : ReferenceLine.

(** One iteration of the loop of [FrenetToCartesian] after the projection
    succeeded: builds the point and derives its arc length from the
    points pushed so far. *)
Definition next_path_point (path_points : list PathPoint)
           (frenet_point : FrenetFramePoint) (cartesian_point : Vec2d)
  : PathPoint :=
  let ref_point := get_reference_point rl (fp_s frenet_point) in
  let theta :=
    calculate_theta (heading ref_point) (kappa ref_point)
                    (fp_l frenet_point) (fp_dl frenet_point) in
  let kappa :=
    calculate_kappa (kappa ref_point) (dkappa ref_point)
                    (fp_l frenet_point) (fp_dl frenet_point)
                    (fp_ddl frenet_point) in
  let path_point :=
    MakePathPoint (vx cartesian_point) (vy cartesian_point) 0
                  theta kappa 0 0 in
  match path_points with
  | [] => pp_set_s 0 path_point
  | _ :: _ =>
      let last := mkVec2d (pp_x (back path_points)) (pp_y (back path_points)) in
      let current := mkVec2d (pp_x path_point) (pp_y path_point) in
      let distance := Length (vsub last current) in
      pp_set_s (pp_s (back path_points) + distance) path_point
  end.

(** The range-for loop of [FrenetToCartesian] over the remaining input,
    with the local vector [path_points] as accumulator; [None] is the
    [return false] inside the loop. *)
Fixpoint FrenetToCartesian_loop (rest : list FrenetFramePoint)
         (path_points : list PathPoint) : option (list PathPoint) :=
  match rest with
  | [] => Some path_points
  | frenet_point :: rest' =>
      let sl_point := mkSLPoint (fp_s frenet_point) (fp_l frenet_point) in
      match get_point_in_cartesian_frame rl sl_point with
      | None => None
      | Some cartesian_point =>
          FrenetToCartesian_loop rest'
            (path_points ++
               [next_path_point path_points frenet_point cartesian_point])
      end
  end.

(** [PathData::FrenetToCartesian]: the flag returned and the value of
    [*discretized_path] afterwards. *)
Definition FrenetToCartesian (frenet_path : FrenetFramePath)
           (discretized_path : DiscretizedPath) : bool * DiscretizedPath :=
  match FrenetToCartesian_loop (points frenet_path) [] with
  | None => (false, discretized_path)
  | Some path_points => (true, mkDiscretizedPath path_points)
  end.

(** The loop of [CartesianToFrenet], accumulating in
    [frenet_frame_points]. *)
Fixpoint CartesianToFrenet_loop (rest : list PathPoint)
         (frenet_frame_points : list FrenetFramePoint)
  : option (list FrenetFramePoint) :=
  match rest with
  | [] => Some frenet_frame_points
  | path_point :: rest' =>
      match get_point_in_frenet_frame rl
              (mkVec2d (pp_x path_point) (pp_y path_point)) with
      | None => None
      | Some sl_point =>
          (* NOTICE: does not set dl and ddl here. *)
          let frenet_point :=
            fp_set_l (sl_l sl_point)
              (fp_set_s (sl_s sl_point) FrenetFramePoint_default) in
          CartesianToFrenet_loop rest' (frenet_frame_points ++ [frenet_point])
      end
  end.

(** [PathData::CartesianToFrenet]. *)
Definition CartesianToFrenet (discretized_path : DiscretizedPath)
           (frenet_path : FrenetFramePath) : bool * FrenetFramePath :=
  match CartesianToFrenet_loop (path_points discretized_path) [] with
  | None => (false, frenet_path)
  | Some frenet_frame_points =>
      (true, mkFrenetFramePath frenet_frame_points)
  end.

End Conversions.

Section Container.

Variable calculate_theta : R -> R -> R -> R -> R.
Variable calculate_kappa : R -> R -> R -> R -> R -> R.

(** [PathData::set_discretized_path]. *)
Definition set_discretized_path (path : DiscretizedPath) (st : PathData)
  : bool * PathData :=
  match reference_line_ st with
  | None => (false, st)
  | Some rl =>
      let st1 := with_discretized_path path st in
      let '(ok, frenet) :=
        CartesianToFrenet rl (discretized_path_ st1) (frenet_path_ st1) in
      let st2 := with_frenet_path frenet st1 in
      if ok then (true, st2) (* DCHECK_EQ on the two sizes *)
      else (false, st2)
  end.

(** [PathData::set_frenet_path]. *)
Definition set_frenet_path (frenet_path : FrenetFramePath) (st : PathData)
  : bool * PathData :=
  match reference_line_ st with
  | None => (false, st)
  | Some rl =>
      let st1 := with_frenet_path frenet_path st in
      let '(ok, discretized) :=
        FrenetToCartesian calculate_theta calculate_kappa rl
          (frenet_path_ st1) (discretized_path_ st1) in
      let st2 := with_discretized_path discretized st1 in
      if ok then (true, st2) (* DCHECK_EQ on the two sizes *)
      else (false, st2)
  end.

(** [PathData::Clear]. *)
Definition Clear (st : PathData) : PathData :=
  with_reference_line None
    (with_frenet_path (mkFrenetFramePath [])
       (with_discretized_path (mkDiscretizedPath []) st)).

(** [PathData::set_reference_line]. *)
Definition set_reference_line (reference_line : option ReferenceLine)
           (st : PathData) : PathData :=
  with_reference_line reference_line (Clear st).

End Container.

(** ** Lookup by reference arc length *)

(** [kDistanceEpsilon = 1e-3]: the binary64 number nearest to one
    thousandth, [0x1.0624dd2f1a9fcp-10]. *)
Definition kDistanceEpsilon : float := 0x1.0624dd2f1a9fcp-10%float.

(** [std::numeric_limits<double>::max()]. *)
Definition DBL_MAX : float := 0x1.fffffffffffffp+1023%float.

(** [std::fabs(ref_s - frenet_path_.points().at(i).s())], with the
    rounded binary64 subtraction. *)
Definition curr_distance (ref_s s : float) : float :=
  PrimFloat.abs (PrimFloat.sub ref_s s).

(** The loop of [get_path_point_with_ref_s] from counter [i] on, over the
    [s] fields of the remaining points, with the locals [index] and
    [shortest_distance]; the result is the index handed to [PathPointAt],
    by the early return or after the loop.  Both tests are the binary64
    [<]. *)
Fixpoint ref_s_loop (ref_s : float) (rest : list float)
         (i index : nat) (shortest_distance : float) : nat :=
  match rest with
  | [] => index
  | s :: rest' =>
      if PrimFloat.ltb (curr_distance ref_s s) kDistanceEpsilon then i
      else if PrimFloat.ltb (curr_distance ref_s s) shortest_distance
           then ref_s_loop ref_s rest' (S i) i (curr_distance ref_s s)
           else ref_s_loop ref_s rest' (S i) index shortest_distance
  end.

Definition ref_s_index (ref_s : float) (frenet_s : list float) : nat :=
  ref_s_loop ref_s frenet_s 0 0 DBL_MAX.

(** [PathData::get_path_point_with_ref_s]: the point copied into
    [*path_point]; the function returns [true] whenever it returns.  Of
    the container it reads [frenet_s], the [s] field of each point of
    [frenet_path_], and [discretized_path_].  The three [DCHECK]s (handle
    and pointer non-null, equal sizes) are debug-only. *)
Definition get_path_point_with_ref_s (ref_s : float) (frenet_s : list float)
           (discretized_path_ : DiscretizedPath) : option PathPoint :=
  PathPointAt discretized_path_ (ref_s_index ref_s frenet_s).

(** ** Reference behaviour named by the specification *)

(** The specification's "full closest-index scan": the same loop without
    the early return, returning the final [index] and
    [shortest_distance]. *)
Fixpoint full_scan_loop (ref_s : float) (rest : list float)
         (i index : nat) (shortest_distance : float) : nat * float :=
  match rest with
  | [] => (index, shortest_distance)
  | s :: rest' =>
      if PrimFloat.ltb (curr_distance ref_s s) shortest_distance
      then full_scan_loop ref_s rest' (S i) i (curr_distance ref_s s)
      else full_scan_loop ref_s rest' (S i) index shortest_distance
  end.


(** A sample is "within epsilon" of the query: the test of the early
    return. *)
Definition within_epsilon (ref_s s : float) : bool :=
  PrimFloat.ltb (curr_distance ref_s s) kDistanceEpsilon.

(** A sample is closer to the query than [DBL_MAX]: its distance is
    neither infinite, nor [DBL_MAX] itself, nor a NaN. *)
Definition in_reach (ref_s s : float) : bool :=
  PrimFloat.ltb (curr_distance ref_s s) DBL_MAX.




(** The projection query of each conversion fails on a point. *)
Definition cartesian_query_fails (rl : ReferenceLine) (p : FrenetFramePoint) : Prop :=
  get_point_in_cartesian_frame rl (mkSLPoint (fp_s p) (fp_l p)) = None.

Definition frenet_query_fails (rl : ReferenceLine) (p : PathPoint) : Prop :=
  get_point_in_frenet_frame rl (mkVec2d (pp_x p) (pp_y p)) = None.

(** What [CartesianToFrenet] stores for one input point: the projected
    [s] and [l], the two derivatives at their default. *)
Definition projected (rl : ReferenceLine) (pp : PathPoint) (fp : FrenetFramePoint) : Prop :=
  exists sl_point,
    get_point_in_frenet_frame rl (mkVec2d (pp_x pp) (pp_y pp)) = Some sl_point /\
    fp_s fp = sl_s sl_point /\ fp_l fp = sl_l sl_point /\
    fp_dl fp = 0 /\ fp_ddl fp = 0.

(** Position of a Cartesian path point and the Euclidean distance between
    two of them, as [FrenetToCartesian] computes it. *)
Definition position (p : PathPoint) : Vec2d := mkVec2d (pp_x p) (pp_y p).

Definition euclid (p q : PathPoint) : R :=
  Length (vsub (position p) (position q)).

(** The arc lengths of a Cartesian sequence are re-derived from geometry:
    zero at the head, then accumulated point to point. *)
Definition arc_length_chain (l : list PathPoint) : Prop :=
  (forall p, nth_error l 0 = Some p -> pp_s p = 0) /\
  (forall i p q, nth_error l i = Some p -> nth_error l (S i) = Some q ->
                 pp_s q = pp_s p + euclid p q).

(** ** Further notions describing the code *)

(** What [FrenetToCartesian] stores for one input point, the arc length
    apart: the position the reference line maps [(s, l)] to, the heading
    and curvature the two transforms give at the reference point of [s],
    and zero for the fields it passes as [0.0]. *)
Definition converted
           (calculate_theta : R -> R -> R -> R -> R)
           (calculate_kappa : R -> R -> R -> R -> R -> R)
           (rl : ReferenceLine)
           (fp : FrenetFramePoint) (pp : PathPoint) : Prop :=
  exists c,
    get_point_in_cartesian_frame rl (mkSLPoint (fp_s fp) (fp_l fp)) = Some c /\
    pp_x pp = vx c /\ pp_y pp = vy c /\ pp_z pp = 0 /\
    pp_theta pp =
      calculate_theta (heading (get_reference_point rl (fp_s fp)))
                      (kappa (get_reference_point rl (fp_s fp)))
                      (fp_l fp) (fp_dl fp) /\
    pp_kappa pp =
      calculate_kappa (kappa (get_reference_point rl (fp_s fp)))
                      (dkappa (get_reference_point rl (fp_s fp)))
                      (fp_l fp) (fp_dl fp) (fp_ddl fp) /\
    pp_dkappa pp = 0 /\ pp_ddkappa pp = 0.

(** A Frenet point with its two derivatives reset, as [CartesianToFrenet]
    produces them. *)
Definition without_derivatives (fp : FrenetFramePoint) : FrenetFramePoint :=
  mkFrenetFramePoint (fp_s fp) (fp_l fp) 0 0.

(** The equality of sizes the setters and the lookup assert with
    [DCHECK_EQ]. *)
Definition sizes_agree (st : PathData) : Prop :=
  NumOfPoints (discretized_path_ st) = length (points (frenet_path_ st)).

(** The two projections of a reference line undo each other. *)
Definition frenet_undoes_cartesian (rl : ReferenceLine) : Prop :=
  forall sl c,
    get_point_in_cartesian_frame rl sl = Some c ->
    get_point_in_frenet_frame rl c = Some sl.

Definition cartesian_undoes_frenet (rl : ReferenceLine) : Prop :=
  forall v sl,
    get_point_in_frenet_frame rl v = Some sl ->
    get_point_in_cartesian_frame rl sl = Some v.

(** What converting back and forth stores for a Cartesian point [orig]:
    the same position, with heading and curvature computed from the
    projected [l] and zero derivatives. *)
Definition reconverted
           (calculate_theta : R -> R -> R -> R -> R)
           (calculate_kappa : R -> R -> R -> R -> R -> R)
           (rl : ReferenceLine)
           (orig out : PathPoint) : Prop :=
  exists sl,
    get_point_in_frenet_frame rl (position orig) = Some sl /\
    position out = position orig /\
    pp_theta out =
      calculate_theta (heading (get_reference_point rl (sl_s sl)))
                      (kappa (get_reference_point rl (sl_s sl)))
                      (sl_l sl) 0 /\
    pp_kappa out =
      calculate_kappa (kappa (get_reference_point rl (sl_s sl)))
                      (dkappa (get_reference_point rl (sl_s sl)))
                      (sl_l sl) 0 0.

(** ** Sample data *)

Module Samples.

(** A straight reference line along the x axis, defined for
    [0 <= s <= 10]: both projections fail outside that range. *)
Definition on_line (s : R) : bool :=
  if Rle_dec 0 s then (if Rle_dec s 10 then true else false) else false.

Definition x_axis : ReferenceLine :=
  mkReferenceLine
    (fun sl => if on_line (sl_s sl)
               then Some (mkVec2d (sl_s sl) (sl_l sl)) else None)
    (fun _ => mkReferencePoint 0 0 0)
    (fun v => if on_line (vx v)
              then Some (mkSLPoint (vx v) (vy v)) else None).

(** Heading transform of the specification,
    [theta_ref + atan (dl / (1 - kappa_ref * l))]. *)
Definition theta (rtheta rkappa l dl : R) : R :=
  rtheta + atan (dl / (1 - rkappa * l)).

(** A curvature transform that is the identity on the reference
    curvature; the properties below hold for every transform. *)
Definition curvature (rkappa rdkappa l dl ddl : R) : R := rkappa.

Definition cart (x y : R) : PathPoint := MakePathPoint x y 0 0 0 0 0.

Definition frenet (s l : R) : FrenetFramePoint := mkFrenetFramePoint s l 0 0.

(** A container bound to [x_axis] holding a consistent one-point path. *)
Definition bound : PathData :=
  mkPathData (mkDiscretizedPath [cart 1 0])
             (mkFrenetFramePath [frenet 1 0])
             (Some x_axis).

(** The same sequences with no reference line bound. *)
Definition unbound : PathData :=
  mkPathData (mkDiscretizedPath [cart 1 0])
             (mkFrenetFramePath [frenet 1 0])
             None.

(** A Cartesian path whose second point leaves the line's range. *)
Definition leaving_cart : DiscretizedPath :=
  mkDiscretizedPath [cart 2 0; cart 20 0].

(** A Frenet path whose second point leaves the line's range. *)
Definition leaving_frenet : FrenetFramePath :=
  mkFrenetFramePath [frenet 2 0; frenet 20 0].

(** Paths inside the range. *)
Definition inside_cart : DiscretizedPath :=
  mkDiscretizedPath [cart 0 0; cart 1 0; cart 2 1].

Definition inside_frenet : FrenetFramePath :=
  mkFrenetFramePath [frenet 0 0; frenet 1 0; frenet 2 1].

(** What the conversion derives from [inside_frenet] on [x_axis]: the
    positions [(0,0)], [(1,0)], [(2,1)] with the accumulated arc lengths
    [0], [1] and [1 + sqrt 2]. *)
Definition derived (x y heading s : R) : PathPoint :=
  mkPathPoint x y 0 heading 0 s 0 0.

Definition inside_derived : DiscretizedPath :=
  mkDiscretizedPath
    [derived 0 0 (theta 0 0 0 0) 0;
     derived 1 0 (theta 0 0 0 0) 1;
     derived 2 1 (theta 0 0 1 0) (1 + sqrt 2)].

(** What the conversion derives from [inside_cart] on [x_axis]. *)
Definition inside_projected : FrenetFramePath :=
  mkFrenetFramePath [frenet 0 0; frenet 1 0; frenet 2 1].

(** The samples of [inside_frenet] with a lateral slope [dl = 1], and
    what the conversion derives from them: the same positions and arc
    lengths under other headings. *)
Definition sloped_frenet : FrenetFramePath :=
  mkFrenetFramePath
    [mkFrenetFramePoint 0 0 1 0; mkFrenetFramePoint 1 0 1 0;
     mkFrenetFramePoint 2 1 1 0].

Definition sloped_derived : DiscretizedPath :=
  mkDiscretizedPath
    [derived 0 0 (theta 0 0 0 1) 0;
     derived 1 0 (theta 0 0 0 1) 1;
     derived 2 1 (theta 0 0 1 1) (1 + sqrt 2)].





Definition crowded_frenet : FrenetFramePath :=
  mkFrenetFramePath [frenet (1 / 2) 0; frenet (5004 / 10000) 0].

Definition crowded_cart : DiscretizedPath :=
  mkDiscretizedPath [cart (1 / 2) 0; cart (5004 / 10000) 0].

Definition crowded : PathData :=
  mkPathData crowded_cart crowded_frenet (Some x_axis).



End Samples.

(** ** Proof support *)

Create HintDb pathdata discriminated.

Lemma on_line_true (s : R) : 0 <= s <= 10 -> Samples.on_line s = true.
Proof.
  intros [H0 H1]. unfold Samples.on_line.
  destruct (Rle_dec 0 s); [|contradiction].
  destruct (Rle_dec s 10); [reflexivity|contradiction].
Qed.

Lemma on_line_false (s : R) : 10 < s -> Samples.on_line s = false.
Proof.
  intros H. unfold Samples.on_line.
  destruct (Rle_dec 0 s); [|reflexivity].
  destruct (Rle_dec s 10); [lra|reflexivity].
Qed.

(** Rewrites the range test of the sample line at a concrete abscissa. *)
Ltac line_range :=
  repeat first
    [ rewrite on_line_true by lra
    | rewrite on_line_false by lra ].

Lemma nth_error_snoc_last {A : Type} (l : list A) (x : A) :
  nth_error (l ++ [x]) (length l) = Some x.
Proof.
  rewrite nth_error_app2 by lia. now rewrite Nat.sub_diag.
Qed.

Lemma nth_error_back (l : list PathPoint) :
  l <> [] -> nth_error l (pred (length l)) = Some (back l).
Proof.
  unfold back. generalize (MakePathPoint 0 0 0 0 0 0 0) as d.
  induction l as [|a l IH]; intros d Hne; [congruence|].
  destruct l as [|b l]; [reflexivity|].
  change (nth_error (b :: l) (pred (length (b :: l))) = Some (last (b :: l) d)).
  apply IH. discriminate.
Qed.

Lemma Length_nonneg (v : Vec2d) : 0 <= Length v.
Proof. unfold Length. apply sqrt_pos. Qed.

Lemma euclid_nonneg (p q : PathPoint) : 0 <= euclid p q.
Proof. apply Length_nonneg. Qed.

#[export] Hint Resolve euclid_nonneg Length_nonneg : pathdata.

(** ** The conversion loops *)

Section ConversionFacts.

Variable calculate_theta : R -> R -> R -> R -> R.
Variable calculate_kappa : R -> R -> R -> R -> R -> R.
Variable rl : ReferenceLine.

Local Abbreviation F2C_loop := (FrenetToCartesian_loop calculate_theta calculate_kappa rl).
Local Abbreviation F2C := (FrenetToCartesian calculate_theta calculate_kappa rl).
Local Abbreviation C2F_loop := (CartesianToFrenet_loop rl).
Local Abbreviation C2F := (CartesianToFrenet rl).
Local Abbreviation next := (next_path_point calculate_theta calculate_kappa rl).

(** *** Failure *)

Lemma F2C_loop_fails rest :
  Exists (cartesian_query_fails rl) rest ->
  forall acc, F2C_loop rest acc = None.
Proof.
  induction 1 as [p rest Hp | p rest _ IH]; intros acc; simpl.
  - unfold cartesian_query_fails in Hp. now rewrite Hp.
  - destruct (get_point_in_cartesian_frame rl _); [apply IH | reflexivity].
Qed.

Lemma C2F_loop_fails rest :
  Exists (frenet_query_fails rl) rest ->
  forall acc, C2F_loop rest acc = None.
Proof.
  induction 1 as [p rest Hp | p rest _ IH]; intros acc; simpl.
  - unfold frenet_query_fails in Hp. now rewrite Hp.
  - destruct (get_point_in_frenet_frame rl _); [apply IH | reflexivity].
Qed.

(** The loops return whenever every query does: they are total, and fail
    only through a failed query. *)
Lemma F2C_loop_succeeds rest :
  Forall (fun p => ~ cartesian_query_fails rl p) rest ->
  forall acc, exists out, F2C_loop rest acc = Some out.
Proof.
  induction 1 as [|p rest Hp _ IH]; intros acc; simpl.
  - now exists acc.
  - unfold cartesian_query_fails in Hp.
    destruct (get_point_in_cartesian_frame rl _); [apply IH | congruence].
Qed.

Lemma C2F_loop_succeeds rest :
  Forall (fun p => ~ frenet_query_fails rl p) rest ->
  forall acc, exists out, C2F_loop rest acc = Some out.
Proof.
  induction 1 as [|p rest Hp _ IH]; intros acc; simpl.
  - now exists acc.
  - unfold frenet_query_fails in Hp.
    destruct (get_point_in_frenet_frame rl _); [apply IH | congruence].
Qed.

(** *** Length *)

Lemma F2C_loop_length rest :
  forall acc out, F2C_loop rest acc = Some out ->
                  length out = (length acc + length rest)%nat.
Proof.
  induction rest as [|p rest IH]; intros acc out; simpl.
  - intros [= <-]. lia.
  - destruct (get_point_in_cartesian_frame rl _); [|discriminate].
    intros H. apply IH in H. rewrite H, length_app. simpl. lia.
Qed.

Lemma C2F_loop_length rest :
  forall acc out, C2F_loop rest acc = Some out ->
                  length out = (length acc + length rest)%nat.
Proof.
  induction rest as [|p rest IH]; intros acc out; simpl.
  - intros [= <-]. lia.
  - destruct (get_point_in_frenet_frame rl _); [|discriminate].
    intros H. apply IH in H. rewrite H, length_app. simpl. lia.
Qed.

Lemma F2C_true_inv frenet_path old new :
  F2C frenet_path old = (true, new) ->
  F2C_loop (points frenet_path) [] = Some (path_points new).
Proof.
  unfold FrenetToCartesian.
  destruct (F2C_loop (points frenet_path) []); intros [= <-]; reflexivity.
Qed.

Lemma C2F_true_inv discretized_path old new :
  C2F discretized_path old = (true, new) ->
  C2F_loop (path_points discretized_path) [] = Some (points new).
Proof.
  unfold CartesianToFrenet.
  destruct (C2F_loop (path_points discretized_path) []); intros [= <-]; reflexivity.
Qed.

(** A conversion that reports failure leaves its output untouched. *)
Lemma F2C_false_inv frenet_path old new :
  F2C frenet_path old = (false, new) -> new = old.
Proof.
  unfold FrenetToCartesian.
  destruct (F2C_loop (points frenet_path) []); now intros [= <-].
Qed.

Lemma C2F_false_inv discretized_path old new :
  C2F discretized_path old = (false, new) -> new = old.
Proof.
  unfold CartesianToFrenet.
  destruct (C2F_loop (path_points discretized_path) []); now intros [= <-].
Qed.

(** *** Content of the Frenet output *)

Lemma C2F_loop_projected rest :
  forall done acc out,
    Forall2 (projected rl) done acc ->
    C2F_loop rest acc = Some out ->
    Forall2 (projected rl) (done ++ rest) out.
Proof.
  induction rest as [|p rest IH]; intros done acc out Hacc; simpl.
  - intros [= <-]. now rewrite app_nil_r.
  - destruct (get_point_in_frenet_frame rl _) as [sl|] eqn:Hq; [|discriminate].
    intros H.
    replace (done ++ p :: rest) with ((done ++ [p]) ++ rest)
      by now rewrite <- app_assoc.
    eapply IH; [|exact H].
    apply Forall2_app; [assumption|].
    constructor; [|constructor].
    exists sl. simpl. auto.
Qed.

(** *** Arc length of the Cartesian output *)

Lemma next_on_empty fp c : pp_s (next [] fp c) = 0.
Proof. reflexivity. Qed.

Lemma next_on_nonempty acc fp c :
  acc <> [] ->
  pp_s (next acc fp c) = pp_s (back acc) + euclid (back acc) (next acc fp c).
Proof.
  destruct acc as [|a acc]; [congruence|]. intros _. reflexivity.
Qed.

Lemma chain_snoc acc fp c :
  arc_length_chain acc -> arc_length_chain (acc ++ [next acc fp c]).
Proof.
  intros [Hhd Hstep]. split.
  - intros p. destruct acc as [|a acc]; simpl.
    + intros [= <-]. reflexivity.
    + intros [= <-]. apply Hhd. reflexivity.
  - intros i p q Hp Hq.
    destruct (Nat.lt_ge_cases (S i) (length acc)) as [Hlt|Hge].
    + rewrite nth_error_app1 in Hp, Hq by lia. eauto.
    + assert (Hi : S i = length acc).
      { apply Nat.le_antisymm; [|exact Hge].
        assert (Hsome : nth_error (acc ++ [next acc fp c]) (S i) <> None)
          by congruence.
        apply nth_error_Some in Hsome.
        rewrite length_app in Hsome. simpl in Hsome. lia. }
      assert (Hne : acc <> []) by (destruct acc; [discriminate|congruence]).
      rewrite Hi, nth_error_snoc_last in Hq. injection Hq as <-.
      rewrite nth_error_app1 in Hp by lia.
      replace i with (pred (length acc)) in Hp by lia.
      rewrite (nth_error_back acc Hne) in Hp. injection Hp as <-.
      now apply next_on_nonempty.
Qed.

Lemma F2C_loop_chain rest :
  forall acc out, arc_length_chain acc ->
                  F2C_loop rest acc = Some out -> arc_length_chain out.
Proof.
  induction rest as [|p rest IH]; intros acc out Hacc; simpl.
  - now intros [= <-].
  - destruct (get_point_in_cartesian_frame rl _) as [c|]; [|discriminate].
    apply IH. now apply chain_snoc.
Qed.

End ConversionFacts.

Lemma chain_nil : arc_length_chain [].
Proof.
  split.
  - intros p H. discriminate.
  - intros i p q H. destruct i; discriminate.
Qed.

(** Along a chain the arc length never decreases. *)
Lemma chain_monotone (l : list PathPoint) :
  arc_length_chain l ->
  forall i j p q, (i <= j)%nat ->
                  nth_error l i = Some p -> nth_error l j = Some q ->
                  pp_s p <= pp_s q.
Proof.
  intros [_ Hstep] i j p q Hij Hp. revert q.
  induction Hij as [|j Hij IH]; intros q Hq.
  - rewrite Hp in Hq. injection Hq as <-. lra.
  - destruct (nth_error l j) as [r|] eqn:Hr.
    + specialize (IH r eq_refl).
      rewrite (Hstep j r q Hr Hq).
      pose proof (euclid_nonneg r q). lra.
    + apply nth_error_None in Hr.
      assert (Hsome : nth_error l (S j) <> None) by congruence.
      apply nth_error_Some in Hsome. lia.
Qed.

(** ** Order of the binary64 comparisons *)

Section Binary64Order.

Local Open Scope Z_scope.





End Binary64Order.





(** ** The lookup loop *)

Section LookupFacts.

Variable ref_s : float.



(** The loop returns the [index] it was given or the counter of one of
    the samples it visits. *)
Lemma ref_s_loop_range rest :
  forall i index sh,
    ref_s_loop ref_s rest i index sh = index \/
    (i <= ref_s_loop ref_s rest i index sh < i + length rest)%nat.
Proof.
  induction rest as [|p rest IH]; intros i index sh; simpl.
  - now left.
  - destruct (PrimFloat.ltb (curr_distance ref_s p) kDistanceEpsilon).
    + right. lia.
    + destruct (PrimFloat.ltb (curr_distance ref_s p) sh).
      * destruct (IH (S i) i (curr_distance ref_s p)) as [->|Hr];
          right; lia.
      * destruct (IH (S i) index sh) as [->|Hr]; [now left | right; lia].
Qed.





Lemma full_scan_far frenet_s :
  Forall (fun s => in_reach ref_s s = false) frenet_s ->
  forall i, fst (full_scan_loop ref_s frenet_s i 0 DBL_MAX) = 0%nat.
Proof.
  induction 1 as [|p rest Hp _ IH]; intros i; simpl.
  - reflexivity.
  - unfold in_reach in Hp. rewrite Hp. apply IH.
Qed.

End LookupFacts.

(** ** Evaluation on the sample data *)

Arguments Samples.on_line : simpl never.

Lemma leaving_cart_fails :
  Exists (frenet_query_fails Samples.x_axis) (path_points Samples.leaving_cart).
Proof.
  apply Exists_cons_tl, Exists_cons_hd.
  unfold frenet_query_fails. simpl. now line_range.
Qed.

Lemma leaving_frenet_fails :
  Exists (cartesian_query_fails Samples.x_axis) (points Samples.leaving_frenet).
Proof.
  apply Exists_cons_tl, Exists_cons_hd.
  unfold cartesian_query_fails. simpl. now line_range.
Qed.

Lemma inside_frenet_converts (old : DiscretizedPath) :
  FrenetToCartesian Samples.theta Samples.curvature Samples.x_axis
    Samples.inside_frenet old
  = (true, Samples.inside_derived).
Proof.
  assert (E1 : Length (vsub (mkVec2d 0 0) (mkVec2d 1 0)) = 1).
  { unfold Length, vsub. simpl.
    replace ((0 - 1) * (0 - 1) + (0 - 0) * (0 - 0)) with 1 by lra.
    apply sqrt_1. }
  assert (E2 : Length (vsub (mkVec2d 1 0) (mkVec2d 2 1)) = sqrt 2).
  { unfold Length, vsub. simpl. f_equal. lra. }
  unfold FrenetToCartesian. simpl. line_range. cbn.
  rewrite E1, E2. replace (0 + 1) with 1 by lra. reflexivity.
Qed.

Lemma inside_cart_converts (old : FrenetFramePath) :
  CartesianToFrenet Samples.x_axis Samples.inside_cart old
  = (true, Samples.inside_projected).
Proof.
  unfold CartesianToFrenet. simpl. line_range. reflexivity.
Qed.





(** A distance equal to the epsilon is not within it: queried at the
    epsilon itself, the sample [0] is passed over and the sample [2^-11],
    at distance about [0.0005], is returned. *)
Lemma epsilon_excluded :
  within_epsilon kDistanceEpsilon 0%float = false /\
  ref_s_index kDistanceEpsilon [0%float; 0x1p-11%float] = 1%nat.
Proof. split; vm_compute; reflexivity. Qed.

(** ** The setters *)

Section SetterFacts.

Variable calculate_theta : R -> R -> R -> R -> R.
Variable calculate_kappa : R -> R -> R -> R -> R -> R.

Local Abbreviation set_frenet := (set_frenet_path calculate_theta calculate_kappa).

Lemma set_discretized_path_unbound path st :
  reference_line_ st = None -> set_discretized_path path st = (false, st).
Proof. unfold set_discretized_path. now intros ->. Qed.

Lemma set_frenet_path_unbound frenet_path st :
  reference_line_ st = None -> set_frenet frenet_path st = (false, st).
Proof. unfold set_frenet_path. now intros ->. Qed.

Lemma set_discretized_path_rejected path st rl :
  reference_line_ st = Some rl ->
  Exists (frenet_query_fails rl) (path_points path) ->
  set_discretized_path path st = (false, with_discretized_path path st).
Proof.
  intros Hrl Hfail. unfold set_discretized_path. rewrite Hrl.
  unfold CartesianToFrenet. simpl.
  rewrite (C2F_loop_fails rl _ Hfail).
  destruct st; reflexivity.
Qed.

Lemma set_frenet_path_rejected frenet_path st rl :
  reference_line_ st = Some rl ->
  Exists (cartesian_query_fails rl) (points frenet_path) ->
  set_frenet frenet_path st = (false, with_frenet_path frenet_path st).
Proof.
  intros Hrl Hfail. unfold set_frenet_path. rewrite Hrl.
  unfold FrenetToCartesian. simpl.
  rewrite (F2C_loop_fails calculate_theta calculate_kappa rl _ Hfail).
  destruct st; reflexivity.
Qed.

(** Every way [set_discretized_path] reports failure. *)
Lemma set_discretized_path_false path st st' :
  set_discretized_path path st = (false, st') ->
  (reference_line_ st = None /\ st' = st) \/
  (reference_line_ st <> None /\ st' = with_discretized_path path st).
Proof.
  unfold set_discretized_path.
  destruct (reference_line_ st) as [rl|] eqn:Hrl.
  - simpl. destruct (CartesianToFrenet rl path (frenet_path_ st)) as [[|] f] eqn:Hc;
      intros [= <-].
    right. split; [discriminate|].
    apply C2F_false_inv in Hc. subst f.
    destruct st; reflexivity.
  - intros [= <-]. now left.
Qed.

Lemma set_frenet_path_false frenet_path st st' :
  set_frenet frenet_path st = (false, st') ->
  (reference_line_ st = None /\ st' = st) \/
  (reference_line_ st <> None /\ st' = with_frenet_path frenet_path st).
Proof.
  unfold set_frenet_path.
  destruct (reference_line_ st) as [rl|] eqn:Hrl.
  - simpl.
    destruct (FrenetToCartesian calculate_theta calculate_kappa rl frenet_path
                (discretized_path_ st)) as [[|] d] eqn:Hc;
      intros [= <-].
    right. split; [discriminate|].
    apply F2C_false_inv in Hc. subst d.
    destruct st; reflexivity.
  - intros [= <-]. now left.
Qed.

End SetterFacts.

Lemma set_leaving_cart :
  set_discretized_path Samples.leaving_cart Samples.bound =
  (false, with_discretized_path Samples.leaving_cart Samples.bound).
Proof.
  apply (set_discretized_path_rejected Samples.leaving_cart Samples.bound
           Samples.x_axis eq_refl).
  exact leaving_cart_fails.
Qed.

Lemma set_leaving_frenet :
  set_frenet_path Samples.theta Samples.curvature
    Samples.leaving_frenet Samples.bound =
  (false, with_frenet_path Samples.leaving_frenet Samples.bound).
Proof.
  apply (set_frenet_path_rejected Samples.theta Samples.curvature
           Samples.leaving_frenet Samples.bound Samples.x_axis eq_refl).
  exact leaving_frenet_fails.
Qed.

(** ** Properties of the container *)

(** C1, as stated, fails: a set operation rejected because a point does not
    project reports [false] and yet leaves the rejected input in the
    primary field.  On the sample container bound to the x axis, the
    two-point Cartesian path leaving the line is stored although
    [set_discretized_path] returns [false], and likewise the Frenet path
    leaving the line through [set_frenet_path]. *)
Lemma failed_set_not_rolled_back :
  ~ (fst (set_discretized_path Samples.leaving_cart Samples.bound) = false ->
     discretized_path_
       (snd (set_discretized_path Samples.leaving_cart Samples.bound))
     = discretized_path_ Samples.bound /\
     frenet_path_
       (snd (set_discretized_path Samples.leaving_cart Samples.bound))
     = frenet_path_ Samples.bound) /\
  ~ (fst (set_frenet_path Samples.theta Samples.curvature
            Samples.leaving_frenet Samples.bound) = false ->
     discretized_path_
       (snd (set_frenet_path Samples.theta Samples.curvature
               Samples.leaving_frenet Samples.bound))
     = discretized_path_ Samples.bound /\
     frenet_path_
       (snd (set_frenet_path Samples.theta Samples.curvature
               Samples.leaving_frenet Samples.bound))
     = frenet_path_ Samples.bound).
Proof.
  rewrite set_leaving_cart, set_leaving_frenet. simpl.
  split; intros H; destruct (H eq_refl) as [Hd Hf]; discriminate.
Qed.

(** C1, amended: when a set operation returns [false], the derived
    sequence (the Frenet one for [set_discretized_path], the Cartesian one
    for [set_frenet_path]) and the handle are as before the call; the
    primary sequence is as before when no reference line is bound, and is
    the rejected input when one is. *)
Theorem failed_set_keeps_derived
        (calculate_theta : R -> R -> R -> R -> R)
        (calculate_kappa : R -> R -> R -> R -> R -> R)
        (st st' : PathData) :
  (forall path,
      set_discretized_path path st = (false, st') ->
      frenet_path_ st' = frenet_path_ st /\
      reference_line_ st' = reference_line_ st /\
      (reference_line_ st = None ->
       discretized_path_ st' = discretized_path_ st) /\
      (reference_line_ st <> None -> discretized_path_ st' = path)) /\
  (forall frenet_path,
      set_frenet_path calculate_theta calculate_kappa frenet_path st
      = (false, st') ->
      discretized_path_ st' = discretized_path_ st /\
      reference_line_ st' = reference_line_ st /\
      (reference_line_ st = None -> frenet_path_ st' = frenet_path_ st) /\
      (reference_line_ st <> None -> frenet_path_ st' = frenet_path)).
Proof.
  split.
  - intros path H.
    destruct (set_discretized_path_false _ _ _ H) as [[Hn ->]|[Hb ->]];
      repeat split; auto; try contradiction; congruence.
  - intros frenet_path H.
    destruct (set_frenet_path_false _ _ _ _ _ H) as [[Hn ->]|[Hb ->]];
      repeat split; auto; try contradiction; congruence.
Qed.

Lemma failed_set_keeps_derived_witness :
  frenet_path_ (with_discretized_path Samples.leaving_cart Samples.bound)
  = frenet_path_ Samples.bound /\
  discretized_path_ (with_discretized_path Samples.leaving_cart Samples.bound)
  = Samples.leaving_cart.
Proof.
  destruct (proj1 (failed_set_keeps_derived Samples.theta Samples.curvature
                     Samples.bound
                     (with_discretized_path Samples.leaving_cart Samples.bound))
                  Samples.leaving_cart set_leaving_cart)
    as (Hf & _ & _ & Hd).
  split; [exact Hf | apply Hd; discriminate].
Defined.

(** C9: with a reference line bound, a set operation whose derivation
    fails on some point returns [false] with the rejected input stored in
    the primary field and the other sequence as before the call. *)
Theorem failed_derivation_overwrites_primary
        (calculate_theta : R -> R -> R -> R -> R)
        (calculate_kappa : R -> R -> R -> R -> R -> R)
        (st : PathData) (rl : ReferenceLine) :
  reference_line_ st = Some rl ->
  (forall path,
      Exists (frenet_query_fails rl) (path_points path) ->
      fst (set_discretized_path path st) = false /\
      discretized_path_ (snd (set_discretized_path path st)) = path /\
      frenet_path_ (snd (set_discretized_path path st)) = frenet_path_ st) /\
  (forall frenet_path,
      Exists (cartesian_query_fails rl) (points frenet_path) ->
      fst (set_frenet_path calculate_theta calculate_kappa frenet_path st)
      = false /\
      frenet_path_
        (snd (set_frenet_path calculate_theta calculate_kappa frenet_path st))
      = frenet_path /\
      discretized_path_
        (snd (set_frenet_path calculate_theta calculate_kappa frenet_path st))
      = discretized_path_ st).
Proof.
  intros Hrl. split.
  - intros path Hfail.
    rewrite (set_discretized_path_rejected path st rl Hrl Hfail). auto.
  - intros frenet_path Hfail.
    rewrite (set_frenet_path_rejected calculate_theta calculate_kappa
               frenet_path st rl Hrl Hfail). auto.
Qed.

Lemma failed_derivation_overwrites_primary_witness :
  fst (set_discretized_path Samples.leaving_cart Samples.bound) = false /\
  discretized_path_ (snd (set_discretized_path Samples.leaving_cart Samples.bound))
  = Samples.leaving_cart /\
  frenet_path_ (snd (set_discretized_path Samples.leaving_cart Samples.bound))
  = mkFrenetFramePath [Samples.frenet 1 0].
Proof.
  exact (proj1 (failed_derivation_overwrites_primary
                  Samples.theta Samples.curvature
                  Samples.bound Samples.x_axis eq_refl)
               Samples.leaving_cart leaving_cart_fails).
Defined.

(** C10: with no reference line bound, both set operations return [false]
    and leave the whole container (both sequences and the handle) as it
    was. *)
Theorem unbound_set_changes_nothing
        (calculate_theta : R -> R -> R -> R -> R)
        (calculate_kappa : R -> R -> R -> R -> R -> R)
        (st : PathData) :
  reference_line_ st = None ->
  (forall path, set_discretized_path path st = (false, st)) /\
  (forall frenet_path,
      set_frenet_path calculate_theta calculate_kappa frenet_path st
      = (false, st)).
Proof.
  intros Hrl. split; intros x.
  - now apply set_discretized_path_unbound.
  - now apply set_frenet_path_unbound.
Qed.

Lemma unbound_set_changes_nothing_witness :
  set_discretized_path Samples.inside_cart Samples.unbound
  = (false, Samples.unbound) /\
  set_frenet_path Samples.theta Samples.curvature
    Samples.inside_frenet Samples.unbound
  = (false, Samples.unbound).
Proof.
  destruct (unbound_set_changes_nothing Samples.theta Samples.curvature
              Samples.unbound eq_refl) as [Hc Hf].
  split; [apply Hc | apply Hf].
Defined.

(** C6: a sequence cannot be set while no reference line is bound: both
    set operations return [false] when the handle is [nullptr]. *)
Theorem unbound_set_returns_false
        (calculate_theta : R -> R -> R -> R -> R)
        (calculate_kappa : R -> R -> R -> R -> R -> R)
        (st : PathData) (path : DiscretizedPath) (frenet_path : FrenetFramePath) :
  reference_line_ st = None ->
  fst (set_discretized_path path st) = false /\
  fst (set_frenet_path calculate_theta calculate_kappa frenet_path st) = false.
Proof.
  intros Hrl.
  rewrite set_discretized_path_unbound, set_frenet_path_unbound by exact Hrl.
  auto.
Qed.

Lemma unbound_set_returns_false_witness :
  fst (set_discretized_path Samples.inside_cart Samples.unbound) = false /\
  fst (set_frenet_path Samples.theta Samples.curvature
         Samples.inside_frenet Samples.unbound) = false.
Proof.
  exact (unbound_set_returns_false Samples.theta Samples.curvature
           Samples.unbound Samples.inside_cart Samples.inside_frenet eq_refl).
Defined.

(** C7: binding a reference line clears the container: whatever the
    prior state and the handle given (a line or [nullptr]), both stored
    sequences are empty afterwards and the stored handle is the
    argument. *)
Theorem set_reference_line_clears
        (st : PathData) (reference_line : option ReferenceLine) :
  path_points (discretized_path_ (set_reference_line reference_line st)) = [] /\
  points (frenet_path_ (set_reference_line reference_line st)) = [] /\
  reference_line_ (set_reference_line reference_line st) = reference_line.
Proof.
  unfold set_reference_line, Clear. simpl. auto.
Qed.

(** ** Properties of the conversions *)

(** C3: both conversions fail atomically: as soon as the reference-line
    query fails on one point of the input, the conversion returns [false]
    and the pointee of its output parameter is what it was, whatever the
    position of the failing point. *)
Theorem conversions_fail_atomically
        (calculate_theta : R -> R -> R -> R -> R)
        (calculate_kappa : R -> R -> R -> R -> R -> R)
        (rl : ReferenceLine) :
  (forall frenet_path discretized_path,
      Exists (cartesian_query_fails rl) (points frenet_path) ->
      FrenetToCartesian calculate_theta calculate_kappa rl
        frenet_path discretized_path
      = (false, discretized_path)) /\
  (forall discretized_path frenet_path,
      Exists (frenet_query_fails rl) (path_points discretized_path) ->
      CartesianToFrenet rl discretized_path frenet_path
      = (false, frenet_path)).
Proof.
  split.
  - intros frenet_path discretized_path Hfail. unfold FrenetToCartesian.
    now rewrite (F2C_loop_fails calculate_theta calculate_kappa rl _ Hfail).
  - intros discretized_path frenet_path Hfail. unfold CartesianToFrenet.
    now rewrite (C2F_loop_fails rl _ Hfail).
Qed.

Lemma conversions_fail_atomically_witness :
  FrenetToCartesian Samples.theta Samples.curvature Samples.x_axis
    Samples.leaving_frenet Samples.inside_cart
  = (false, Samples.inside_cart) /\
  CartesianToFrenet Samples.x_axis Samples.leaving_cart Samples.inside_frenet
  = (false, Samples.inside_frenet).
Proof.
  destruct (conversions_fail_atomically Samples.theta Samples.curvature
              Samples.x_axis) as [Hf Hc].
  split.
  - apply Hf. exact leaving_frenet_fails.
  - apply Hc. exact leaving_cart_fails.
Defined.

(** C5: both conversions preserve the number of points: a successful
    [FrenetToCartesian] outputs as many points as its Frenet input, a
    successful [CartesianToFrenet] as many as its Cartesian input, and
    each succeeds with an empty output on an empty input. *)
Theorem conversions_preserve_length
        (calculate_theta : R -> R -> R -> R -> R)
        (calculate_kappa : R -> R -> R -> R -> R -> R)
        (rl : ReferenceLine) :
  (forall frenet_path old new,
      FrenetToCartesian calculate_theta calculate_kappa rl frenet_path old
      = (true, new) ->
      NumOfPoints new = length (points frenet_path)) /\
  (forall discretized_path old new,
      CartesianToFrenet rl discretized_path old = (true, new) ->
      length (points new) = NumOfPoints discretized_path) /\
  (forall old,
      FrenetToCartesian calculate_theta calculate_kappa rl
        (mkFrenetFramePath []) old
      = (true, mkDiscretizedPath [])) /\
  (forall old,
      CartesianToFrenet rl (mkDiscretizedPath []) old
      = (true, mkFrenetFramePath [])).
Proof.
  repeat split.
  - intros frenet_path old new H. apply F2C_true_inv in H.
    apply F2C_loop_length in H. exact H.
  - intros discretized_path old new H. apply C2F_true_inv in H.
    apply C2F_loop_length in H. exact H.
Qed.

Lemma conversions_preserve_length_witness :
  NumOfPoints Samples.inside_derived = length (points Samples.inside_frenet) /\
  length (points Samples.inside_projected) = NumOfPoints Samples.inside_cart.
Proof.
  destruct (conversions_preserve_length Samples.theta Samples.curvature
              Samples.x_axis) as (Hf & Hc & _).
  split.
  - exact (Hf Samples.inside_frenet (mkDiscretizedPath []) _
              (inside_frenet_converts _)).
  - exact (Hc Samples.inside_cart (mkFrenetFramePath []) _
              (inside_cart_converts _)).
Defined.

(** C8: a successful [CartesianToFrenet] outputs, point for point, the
    [s] and [l] the reference line projects the input position to, with
    [dl] and [ddl] left at zero. *)
Theorem cartesian_to_frenet_leaves_derivatives
        (rl : ReferenceLine) (discretized_path : DiscretizedPath)
        (old new : FrenetFramePath) :
  CartesianToFrenet rl discretized_path old = (true, new) ->
  Forall2 (projected rl) (path_points discretized_path) (points new) /\
  Forall (fun fp => fp_dl fp = 0 /\ fp_ddl fp = 0) (points new).
Proof.
  intros H. apply C2F_true_inv in H.
  assert (HF : Forall2 (projected rl) (path_points discretized_path) (points new))
    by exact (C2F_loop_projected rl _ [] [] _ (Forall2_nil _) H).
  split; [exact HF|].
  clear H. induction HF as [|pp fp pps fps Hp _ IH]; constructor; [|exact IH].
  destruct Hp as (sl & _ & _ & _ & Hdl & Hddl). auto.
Qed.

Lemma cartesian_to_frenet_leaves_derivatives_witness :
  Forall2 (projected Samples.x_axis)
          (path_points Samples.inside_cart) (points Samples.inside_projected) /\
  Forall (fun fp => fp_dl fp = 0 /\ fp_ddl fp = 0)
         (points Samples.inside_projected).
Proof.
  exact (cartesian_to_frenet_leaves_derivatives
           Samples.x_axis Samples.inside_cart (mkFrenetFramePath []) _
           (inside_cart_converts _)).
Defined.

(** C4: in the output of a successful [FrenetToCartesian] the first
    point has arc length exactly [0], every later point has the arc
    length of its predecessor plus the Euclidean distance between the two
    output positions, and so the arc lengths never decrease along the
    sequence. *)
Theorem frenet_to_cartesian_arc_length
        (calculate_theta : R -> R -> R -> R -> R)
        (calculate_kappa : R -> R -> R -> R -> R -> R)
        (rl : ReferenceLine) (frenet_path : FrenetFramePath)
        (old new : DiscretizedPath) :
  FrenetToCartesian calculate_theta calculate_kappa rl frenet_path old
  = (true, new) ->
  (forall p, PathPointAt new 0 = Some p -> pp_s p = 0) /\
  (forall i p q,
      PathPointAt new i = Some p -> PathPointAt new (S i) = Some q ->
      pp_s q = pp_s p + euclid p q) /\
  (forall i j p q,
      (i <= j)%nat ->
      PathPointAt new i = Some p -> PathPointAt new j = Some q ->
      pp_s p <= pp_s q).
Proof.
  intros H. apply F2C_true_inv in H.
  pose proof (F2C_loop_chain calculate_theta calculate_kappa rl _ _ _
                chain_nil H) as Hchain.
  unfold PathPointAt. split; [apply Hchain|]. split; [apply Hchain|].
  exact (chain_monotone _ Hchain).
Qed.

Lemma frenet_to_cartesian_arc_length_witness :
  pp_s (Samples.derived 0 0 (Samples.theta 0 0 0 0) 0) = 0 /\
  pp_s (Samples.derived 2 1 (Samples.theta 0 0 1 0) (1 + sqrt 2))
  = pp_s (Samples.derived 1 0 (Samples.theta 0 0 0 0) 1)
    + euclid (Samples.derived 1 0 (Samples.theta 0 0 0 0) 1)
             (Samples.derived 2 1 (Samples.theta 0 0 1 0) (1 + sqrt 2)) /\
  pp_s (Samples.derived 0 0 (Samples.theta 0 0 0 0) 0)
  <= pp_s (Samples.derived 2 1 (Samples.theta 0 0 1 0) (1 + sqrt 2)).
Proof.
  destruct (frenet_to_cartesian_arc_length
              Samples.theta Samples.curvature Samples.x_axis
              Samples.inside_frenet (mkDiscretizedPath []) _
              (inside_frenet_converts _)) as (Hhead & Hstep & Hmono).
  split; [exact (Hhead _ eq_refl)|].
  split; [exact (Hstep 1%nat _ _ eq_refl eq_refl)|].
  exact (Hmono 0%nat 2%nat _ _ (le_S _ _ (le_S _ _ (le_n 0))) eq_refl eq_refl).
Defined.

(** ** Properties of the lookup *)

(** On a non-empty Frenet sequence the index handed to [PathPointAt] is in
    range, so the lookup returns a point whenever the two stored
    sequences have the same length. *)
Lemma ref_s_index_in_range (ref_s : float) (frenet_s : list float) :
  frenet_s <> [] ->
  (ref_s_index ref_s frenet_s < length frenet_s)%nat.
Proof.
  intros Hne. unfold ref_s_index.
  destruct (ref_s_loop_range ref_s frenet_s 0 0 DBL_MAX) as [->|Hr].
  - destruct frenet_s; [congruence | simpl; lia].
  - lia.
Qed.

Lemma get_path_point_with_ref_s_returns
      (ref_s : float) (frenet_s : list float) (discretized_path_ : DiscretizedPath) :
  frenet_s <> [] ->
  NumOfPoints discretized_path_ = length frenet_s ->
  exists p, get_path_point_with_ref_s ref_s frenet_s discretized_path_ = Some p.
Proof.
  intros Hne Hlen. unfold get_path_point_with_ref_s, PathPointAt.
  pose proof (ref_s_index_in_range ref_s _ Hne) as Hi.
  unfold NumOfPoints in Hlen. rewrite <- Hlen in Hi.
  apply nth_error_Some in Hi.
  destruct (nth_error _ _) as [p|]; [now exists p | congruence].
Qed.

Lemma within_epsilon_cases (ref_s : float) (frenet_s : list float) :
  Exists (fun s => within_epsilon ref_s s = true) frenet_s \/
  Forall (fun s => within_epsilon ref_s s = false) frenet_s.
Proof.
  induction frenet_s as [|s rest [IH|IH]].
  - right. constructor.
  - left. now apply Exists_cons_tl.
  - destruct (within_epsilon ref_s s) eqn:Hw.
    + left. now apply Exists_cons_hd.
    + right. now constructor.
Qed.





(** * Further properties *)

(** ** More on the conversion loops *)

Section ConversionMore.

Variable calculate_theta : R -> R -> R -> R -> R.
Variable calculate_kappa : R -> R -> R -> R -> R -> R.
Variable rl : ReferenceLine.

Local Abbreviation F2C_loop := (FrenetToCartesian_loop calculate_theta calculate_kappa rl).
Local Abbreviation F2C := (FrenetToCartesian calculate_theta calculate_kappa rl).
Local Abbreviation C2F_loop := (CartesianToFrenet_loop rl).
Local Abbreviation C2F := (CartesianToFrenet rl).
Local Abbreviation next := (next_path_point calculate_theta calculate_kappa rl).
Local Abbreviation conv := (converted calculate_theta calculate_kappa rl).

Lemma F2C_loop_queries rest :
  forall acc out, F2C_loop rest acc = Some out ->
                  Forall (fun p => ~ cartesian_query_fails rl p) rest.
Proof.
  induction rest as [|p rest IH]; intros acc out; simpl; [constructor|].
  destruct (get_point_in_cartesian_frame rl _) as [c|] eqn:Hq; [|discriminate].
  intros H. constructor; [|eapply IH; exact H].
  unfold cartesian_query_fails. congruence.
Qed.

Lemma C2F_loop_queries rest :
  forall acc out, C2F_loop rest acc = Some out ->
                  Forall (fun p => ~ frenet_query_fails rl p) rest.
Proof.
  induction rest as [|p rest IH]; intros acc out; simpl; [constructor|].
  destruct (get_point_in_frenet_frame rl _) as [c|] eqn:Hq; [|discriminate].
  intros H. constructor; [|eapply IH; exact H].
  unfold frenet_query_fails. congruence.
Qed.

Lemma F2C_flag frenet_path old :
  fst (F2C frenet_path old) = true <->
  exists out, F2C_loop (points frenet_path) [] = Some out.
Proof.
  unfold FrenetToCartesian.
  destruct (F2C_loop (points frenet_path) []) as [out|]; simpl; split.
  - intros _. now exists out.
  - reflexivity.
  - discriminate.
  - intros [out H]. discriminate.
Qed.

Lemma C2F_flag discretized_path old :
  fst (C2F discretized_path old) = true <->
  exists out, C2F_loop (path_points discretized_path) [] = Some out.
Proof.
  unfold CartesianToFrenet.
  destruct (C2F_loop (path_points discretized_path) []) as [out|]; simpl; split.
  - intros _. now exists out.
  - reflexivity.
  - discriminate.
  - intros [out H]. discriminate.
Qed.

Lemma next_converted acc fp c :
  get_point_in_cartesian_frame rl (mkSLPoint (fp_s fp) (fp_l fp)) = Some c ->
  conv fp (next acc fp c).
Proof.
  intros Hq. exists c. split; [exact Hq|].
  destruct acc; simpl; repeat split; reflexivity.
Qed.

Lemma F2C_loop_converted rest :
  forall done acc out,
    Forall2 conv done acc ->
    F2C_loop rest acc = Some out ->
    Forall2 conv (done ++ rest) out.
Proof.
  induction rest as [|p rest IH]; intros done acc out Hacc; simpl.
  - intros [= <-]. now rewrite app_nil_r.
  - destruct (get_point_in_cartesian_frame rl _) as [c|] eqn:Hq; [|discriminate].
    intros H.
    replace (done ++ p :: rest) with ((done ++ [p]) ++ rest)
      by now rewrite <- app_assoc.
    eapply IH; [|exact H].
    apply Forall2_app; [assumption|].
    constructor; [|constructor]. now apply next_converted.
Qed.

(** The loop over a concatenated input is the loop over the first part
    followed by the loop over the second. *)
Lemma F2C_loop_app a b :
  forall acc,
    F2C_loop (a ++ b) acc =
    match F2C_loop a acc with
    | Some mid => F2C_loop b mid
    | None => None
    end.
Proof.
  induction a as [|p a IH]; intros acc; simpl; [reflexivity|].
  destruct (get_point_in_cartesian_frame rl _); [apply IH | reflexivity].
Qed.

(** The accumulator is a prefix of what the loop returns. *)
Lemma F2C_loop_extends rest :
  forall acc out, F2C_loop rest acc = Some out ->
                  firstn (length acc) out = acc.
Proof.
  induction rest as [|p rest IH]; intros acc out; simpl.
  - intros [= <-]. apply firstn_all.
  - destruct (get_point_in_cartesian_frame rl _) as [c|]; [|discriminate].
    intros H. apply IH in H.
    apply (f_equal (firstn (length acc))) in H.
    rewrite firstn_firstn, length_app, Nat.min_l in H by lia.
    rewrite H, firstn_app, Nat.sub_diag, firstn_all. simpl.
    now rewrite app_nil_r.
Qed.

(** With projections that undo each other the loops invert each other on
    the positions. *)
Lemma C2F_loop_back frenet_points :
  frenet_undoes_cartesian rl ->
  forall path_points acc,
    Forall2 conv frenet_points path_points ->
    C2F_loop path_points acc =
    Some (acc ++ map without_derivatives frenet_points).
Proof.
  intros Hinv path_points acc HF. revert acc.
  induction HF as [|fp pp fps pps Hc _ IH]; intros acc; simpl.
  - now rewrite app_nil_r.
  - destruct Hc as (c & Hq & Hx & Hy & _).
    apply Hinv in Hq. destruct c as [cx cy]. simpl in Hx, Hy.
    rewrite Hx, Hy, Hq. simpl.
    rewrite IH, <- app_assoc. reflexivity.
Qed.

End ConversionMore.

(** ** Geometry of the arc length *)

Lemma euclid_positions (p q p' q' : PathPoint) :
  position p = position p' -> position q = position q' ->
  euclid p q = euclid p' q'.
Proof. unfold euclid. now intros -> ->. Qed.

(** Two chains over the same positions carry the same arc lengths. *)
Lemma chain_positions (l1 l2 : list PathPoint) :
  arc_length_chain l1 -> arc_length_chain l2 ->
  map position l1 = map position l2 ->
  map pp_s l1 = map pp_s l2.
Proof.
  intros [Hhd1 Hstep1] [Hhd2 Hstep2] Hpos.
  assert (Hat : forall i p q, nth_error l1 i = Some p -> nth_error l2 i = Some q ->
                              position p = position q).
  { intros i p q Hp Hq.
    apply (f_equal (fun l => nth_error l i)) in Hpos.
    rewrite !nth_error_map, Hp, Hq in Hpos. simpl in Hpos. congruence. }
  assert (Hlen : length l1 = length l2).
  { apply (f_equal (@length _)) in Hpos. now rewrite !length_map in Hpos. }
  assert (Hs : forall i p q, nth_error l1 i = Some p -> nth_error l2 i = Some q ->
                             pp_s p = pp_s q).
  { induction i as [|i IH]; intros p q Hp Hq.
    - rewrite (Hhd1 p Hp), (Hhd2 q Hq). reflexivity.
    - destruct (nth_error l1 i) as [p'|] eqn:Hp'.
      + destruct (nth_error l2 i) as [q'|] eqn:Hq'.
        * rewrite (Hstep1 i p' p Hp' Hp), (Hstep2 i q' q Hq' Hq).
          rewrite (IH p' q' eq_refl eq_refl).
          f_equal. apply euclid_positions; [exact (Hat i p' q' Hp' Hq')|].
          exact (Hat (S i) p q Hp Hq).
        * apply nth_error_None in Hq'.
          assert (Hsome : nth_error l2 (S i) <> None) by congruence.
          apply nth_error_Some in Hsome. lia.
      + apply nth_error_None in Hp'.
        assert (Hsome : nth_error l1 (S i) <> None) by congruence.
        apply nth_error_Some in Hsome. lia. }
  apply nth_error_ext. intros i. rewrite !nth_error_map.
  destruct (nth_error l1 i) as [p|] eqn:Hp;
    destruct (nth_error l2 i) as [q|] eqn:Hq; simpl.
  - f_equal. exact (Hs i p q Hp Hq).
  - apply nth_error_None in Hq.
    assert (Hsome : nth_error l1 i <> None) by congruence.
    apply nth_error_Some in Hsome. lia.
  - apply nth_error_None in Hp.
    assert (Hsome : nth_error l2 i <> None) by congruence.
    apply nth_error_Some in Hsome. lia.
  - reflexivity.
Qed.

Lemma Forall2_compose {A B C : Type}
      (P : A -> B -> Prop) (Q : B -> C -> Prop) (T : A -> C -> Prop) :
  (forall a b c, P a b -> Q b c -> T a c) ->
  forall la lb lc, Forall2 P la lb -> Forall2 Q lb lc -> Forall2 T la lc.
Proof.
  intros HT la lb lc HP. revert lc.
  induction HP as [|a b la lb Hab _ IH]; intros lc HQ; inversion HQ; subst.
  - constructor.
  - constructor; [eapply HT; eassumption | now apply IH].
Qed.

Lemma Forall2_map_eq {A B : Type} (f : A -> B) (l1 l2 : list A) :
  Forall2 (fun a b => f b = f a) l1 l2 -> map f l2 = map f l1.
Proof.
  induction 1 as [|a b l1 l2 Hab _ IH]; simpl; [reflexivity|].
  now rewrite Hab, IH.
Qed.

(** ** The sample line *)

Lemma x_axis_frenet_undoes_cartesian : frenet_undoes_cartesian Samples.x_axis.
Proof.
  intros [s l] c. simpl.
  destruct (Samples.on_line s) eqn:Hon; [|discriminate].
  intros [= <-]. simpl. now rewrite Hon.
Qed.

Lemma x_axis_cartesian_undoes_frenet : cartesian_undoes_frenet Samples.x_axis.
Proof.
  intros [x y] sl. simpl.
  destruct (Samples.on_line x) eqn:Hon; [|discriminate].
  intros [= <-]. simpl. now rewrite Hon.
Qed.

Lemma inside_frenet_queries :
  Forall (fun p => ~ cartesian_query_fails Samples.x_axis p)
         (points Samples.inside_frenet).
Proof.
  repeat constructor; unfold cartesian_query_fails; simpl; line_range;
    discriminate.
Qed.

Lemma inside_cart_queries :
  Forall (fun p => ~ frenet_query_fails Samples.x_axis p)
         (path_points Samples.inside_cart).
Proof.
  repeat constructor; unfold frenet_query_fails; simpl; line_range;
    discriminate.
Qed.

(** ** Further properties of the conversions *)

(** X1: a conversion returns [true] exactly when the reference-line query
    succeeds on every point of its input; there is no other way for it to
    fail. *)
Theorem conversion_succeeds_iff
        (calculate_theta : R -> R -> R -> R -> R)
        (calculate_kappa : R -> R -> R -> R -> R -> R)
        (rl : ReferenceLine) :
  (forall frenet_path old,
      fst (FrenetToCartesian calculate_theta calculate_kappa rl frenet_path old)
      = true <->
      Forall (fun p => ~ cartesian_query_fails rl p) (points frenet_path)) /\
  (forall discretized_path old,
      fst (CartesianToFrenet rl discretized_path old) = true <->
      Forall (fun p => ~ frenet_query_fails rl p) (path_points discretized_path)).
Proof.
  split.
  - intros frenet_path old. rewrite F2C_flag. split.
    + intros [out H]. eapply F2C_loop_queries. exact H.
    + intros H. now apply F2C_loop_succeeds.
  - intros discretized_path old. rewrite C2F_flag. split.
    + intros [out H]. eapply C2F_loop_queries. exact H.
    + intros H. now apply C2F_loop_succeeds.
Qed.

Lemma conversion_succeeds_iff_witness :
  fst (FrenetToCartesian Samples.theta Samples.curvature Samples.x_axis
         Samples.inside_frenet Samples.leaving_cart) = true /\
  fst (CartesianToFrenet Samples.x_axis Samples.inside_cart
         Samples.leaving_frenet) = true.
Proof.
  destruct (conversion_succeeds_iff Samples.theta Samples.curvature
              Samples.x_axis) as [Hf Hc].
  split.
  - apply Hf. exact inside_frenet_queries.
  - apply Hc. exact inside_cart_queries.
Defined.

(** X2: a successful [FrenetToCartesian] outputs, point for point and in
    the order of the input, the position the reference line gives for
    [(s, l)], the heading and curvature the two transforms give at the
    reference point of [s], and zero for [z], [dkappa] and [ddkappa]. *)
Theorem frenet_to_cartesian_pointwise
        (calculate_theta : R -> R -> R -> R -> R)
        (calculate_kappa : R -> R -> R -> R -> R -> R)
        (rl : ReferenceLine) (frenet_path : FrenetFramePath)
        (old new : DiscretizedPath) :
  FrenetToCartesian calculate_theta calculate_kappa rl frenet_path old
  = (true, new) ->
  Forall2 (converted calculate_theta calculate_kappa rl)
          (points frenet_path) (path_points new).
Proof.
  intros H. apply F2C_true_inv in H.
  exact (F2C_loop_converted calculate_theta calculate_kappa rl _ [] [] _
           (Forall2_nil _) H).
Qed.

Lemma frenet_to_cartesian_pointwise_witness :
  Forall2 (converted Samples.theta Samples.curvature Samples.x_axis)
          (points Samples.inside_frenet) (path_points Samples.inside_derived).
Proof.
  exact (frenet_to_cartesian_pointwise
           Samples.theta Samples.curvature Samples.x_axis
           Samples.inside_frenet (mkDiscretizedPath []) _
           (inside_frenet_converts _)).
Defined.

(** X3: the conversion of a prefix is the prefix of the conversion: when
    [FrenetToCartesian] succeeds on an input, it succeeds on every prefix
    of it, with the corresponding first points of the output, arc lengths
    included. *)
Theorem frenet_to_cartesian_prefix
        (calculate_theta : R -> R -> R -> R -> R)
        (calculate_kappa : R -> R -> R -> R -> R -> R)
        (rl : ReferenceLine) (a b : list FrenetFramePoint)
        (old old' new : DiscretizedPath) :
  FrenetToCartesian calculate_theta calculate_kappa rl
    (mkFrenetFramePath (a ++ b)) old = (true, new) ->
  FrenetToCartesian calculate_theta calculate_kappa rl
    (mkFrenetFramePath a) old'
  = (true, mkDiscretizedPath (firstn (length a) (path_points new))).
Proof.
  intros H. apply F2C_true_inv in H. simpl in H.
  rewrite F2C_loop_app in H.
  unfold FrenetToCartesian. simpl.
  destruct (FrenetToCartesian_loop calculate_theta calculate_kappa rl a [])
    as [mid|] eqn:Hmid; [|discriminate].
  pose proof (F2C_loop_length _ _ _ _ _ _ Hmid) as Hlen. simpl in Hlen.
  apply F2C_loop_extends in H. rewrite Hlen in H. now rewrite H.
Qed.

Lemma frenet_to_cartesian_prefix_witness :
  FrenetToCartesian Samples.theta Samples.curvature Samples.x_axis
    (mkFrenetFramePath [Samples.frenet 0 0; Samples.frenet 1 0])
    Samples.leaving_cart
  = (true,
     mkDiscretizedPath
       [Samples.derived 0 0 (Samples.theta 0 0 0 0) 0;
        Samples.derived 1 0 (Samples.theta 0 0 0 0) 1]).
Proof.
  exact (frenet_to_cartesian_prefix
           Samples.theta Samples.curvature Samples.x_axis
           [Samples.frenet 0 0; Samples.frenet 1 0] [Samples.frenet 2 1]
           (mkDiscretizedPath []) Samples.leaving_cart _
           (inside_frenet_converts _)).
Defined.

(** X4: on a reference line whose Cartesian-to-Frenet projection undoes
    its Frenet-to-Cartesian one, converting a Frenet sequence to Cartesian
    and back succeeds and returns the sequence with [s] and [l] intact and
    [dl], [ddl] reset to zero. *)
Theorem frenet_round_trip
        (calculate_theta : R -> R -> R -> R -> R)
        (calculate_kappa : R -> R -> R -> R -> R -> R)
        (rl : ReferenceLine) (frenet_path : FrenetFramePath)
        (old mid : DiscretizedPath) (old' : FrenetFramePath) :
  frenet_undoes_cartesian rl ->
  FrenetToCartesian calculate_theta calculate_kappa rl frenet_path old
  = (true, mid) ->
  CartesianToFrenet rl mid old'
  = (true, mkFrenetFramePath (map without_derivatives (points frenet_path))).
Proof.
  intros Hinv H. apply F2C_true_inv in H.
  pose proof (F2C_loop_converted calculate_theta calculate_kappa rl _ [] [] _
                (Forall2_nil _) H) as Hconv.
  unfold CartesianToFrenet.
  now rewrite (C2F_loop_back calculate_theta calculate_kappa rl _ Hinv _ []
                 Hconv).
Qed.

Lemma frenet_round_trip_witness :
  CartesianToFrenet Samples.x_axis Samples.inside_derived Samples.leaving_frenet
  = (true, mkFrenetFramePath
             (map without_derivatives (points Samples.inside_frenet))).
Proof.
  exact (frenet_round_trip Samples.theta Samples.curvature Samples.x_axis
           Samples.inside_frenet (mkDiscretizedPath []) _ Samples.leaving_frenet
           x_axis_frenet_undoes_cartesian (inside_frenet_converts _)).
Defined.

Lemma projected_then_converted
      (calculate_theta : R -> R -> R -> R -> R)
      (calculate_kappa : R -> R -> R -> R -> R -> R)
      (rl : ReferenceLine) (orig : PathPoint) (fp : FrenetFramePoint)
      (out : PathPoint) :
  cartesian_undoes_frenet rl ->
  projected rl orig fp ->
  converted calculate_theta calculate_kappa rl fp out ->
  reconverted calculate_theta calculate_kappa rl orig out.
Proof.
  intros Hinv (sl & Hq & Hs & Hl & Hdl & Hddl)
         (c & Hc & Hx & Hy & _ & Hth & Hka & _).
  exists sl. split; [exact Hq|].
  rewrite Hs, Hl in Hc, Hth, Hka. rewrite Hdl in Hth, Hka. rewrite Hddl in Hka.
  assert (Hsl : mkSLPoint (sl_s sl) (sl_l sl) = sl) by now destruct sl.
  rewrite Hsl in Hc. rewrite (Hinv _ _ Hq) in Hc. injection Hc as <-.
  simpl in Hx, Hy. split; [|split; assumption].
  unfold position. now rewrite Hx, Hy.
Qed.

Lemma projected_queries (rl : ReferenceLine)
      (path_points : list PathPoint) (frenet_points : list FrenetFramePoint) :
  cartesian_undoes_frenet rl ->
  Forall2 (projected rl) path_points frenet_points ->
  Forall (fun p => ~ cartesian_query_fails rl p) frenet_points.
Proof.
  intros Hinv. induction 1 as [|pp fp pps fps Hp _ IH]; constructor; [|exact IH].
  destruct Hp as (sl & Hq & Hs & Hl & _).
  unfold cartesian_query_fails. rewrite Hs, Hl.
  assert (Hsl : mkSLPoint (sl_s sl) (sl_l sl) = sl) by now destruct sl.
  rewrite Hsl, (Hinv _ _ Hq). discriminate.
Qed.

(** Converting to Frenet and back, at the level of the two conversions. *)
Lemma C2F_then_F2C
        (calculate_theta : R -> R -> R -> R -> R)
        (calculate_kappa : R -> R -> R -> R -> R -> R)
        (rl : ReferenceLine) (discretized_path : DiscretizedPath)
        (old mid : FrenetFramePath) (old' : DiscretizedPath) :
  cartesian_undoes_frenet rl ->
  CartesianToFrenet rl discretized_path old = (true, mid) ->
  exists new,
    FrenetToCartesian calculate_theta calculate_kappa rl mid old'
    = (true, new) /\
    Forall2 (reconverted calculate_theta calculate_kappa rl)
            (path_points discretized_path) (path_points new) /\
    map position (path_points new)
    = map position (path_points discretized_path) /\
    arc_length_chain (path_points new).
Proof.
  intros Hinv H. apply C2F_true_inv in H.
  pose proof (C2F_loop_projected rl _ [] [] _ (Forall2_nil _) H) as Hproj.
  simpl in Hproj.
  destruct (F2C_loop_succeeds calculate_theta calculate_kappa rl _
              (projected_queries rl _ _ Hinv Hproj) []) as [out Hout].
  exists (mkDiscretizedPath out). unfold FrenetToCartesian. rewrite Hout.
  split; [reflexivity|]. simpl.
  pose proof (F2C_loop_converted calculate_theta calculate_kappa rl _ [] [] _
                (Forall2_nil _) Hout) as Hconv.
  simpl in Hconv.
  assert (Hre : Forall2 (reconverted calculate_theta calculate_kappa rl)
                        (path_points discretized_path) out).
  { refine (Forall2_compose _ _ _ _ _ _ _ Hproj Hconv).
    intros a b c. now apply projected_then_converted. }
  split; [exact Hre|]. split.
  - apply Forall2_map_eq.
    refine (Forall2_impl _ _ Hre).
    intros a b (sl & _ & Hpos & _). exact Hpos.
  - exact (F2C_loop_chain calculate_theta calculate_kappa rl _ _ _
             chain_nil Hout).
Qed.

(** X5: on a reference line whose Frenet-to-Cartesian projection undoes
    its Cartesian-to-Frenet one, converting a Cartesian sequence to Frenet
    and back succeeds and reproduces every position; the heading and the
    curvature are recomputed from the projected [l] with zero
    derivatives, and the arc length is re-derived from the positions. *)
Theorem cartesian_round_trip
        (calculate_theta : R -> R -> R -> R -> R)
        (calculate_kappa : R -> R -> R -> R -> R -> R)
        (rl : ReferenceLine) (discretized_path : DiscretizedPath)
        (old mid : FrenetFramePath) (old' : DiscretizedPath) :
  cartesian_undoes_frenet rl ->
  CartesianToFrenet rl discretized_path old = (true, mid) ->
  exists new,
    FrenetToCartesian calculate_theta calculate_kappa rl mid old'
    = (true, new) /\
    Forall2 (reconverted calculate_theta calculate_kappa rl)
            (path_points discretized_path) (path_points new) /\
    map position (path_points new)
    = map position (path_points discretized_path) /\
    arc_length_chain (path_points new).
Proof.
  intros Hinv H.
  exact (C2F_then_F2C calculate_theta calculate_kappa rl discretized_path
           old mid old' Hinv H).
Qed.

Lemma cartesian_round_trip_witness :
  exists new,
    FrenetToCartesian Samples.theta Samples.curvature Samples.x_axis
      Samples.inside_projected Samples.leaving_cart
    = (true, new) /\
    Forall2 (reconverted Samples.theta Samples.curvature Samples.x_axis)
            (path_points Samples.inside_cart) (path_points new) /\
    map position (path_points new)
    = map position (path_points Samples.inside_cart) /\
    arc_length_chain (path_points new).
Proof.
  exact (cartesian_round_trip Samples.theta Samples.curvature Samples.x_axis
           Samples.inside_cart (mkFrenetFramePath []) _ Samples.leaving_cart
           x_axis_cartesian_undoes_frenet (inside_cart_converts _)).
Defined.

(** X8: the arc lengths [FrenetToCartesian] outputs depend on the output
    positions only: two successful conversions, whatever their inputs,
    transforms and reference lines, that produce the same positions
    produce the same arc lengths. *)
Theorem arc_length_from_positions_only
        (theta1 theta2 : R -> R -> R -> R -> R)
        (kappa1 kappa2 : R -> R -> R -> R -> R -> R)
        (rl1 rl2 : ReferenceLine) (frenet1 frenet2 : FrenetFramePath)
        (old1 old2 new1 new2 : DiscretizedPath) :
  FrenetToCartesian theta1 kappa1 rl1 frenet1 old1 = (true, new1) ->
  FrenetToCartesian theta2 kappa2 rl2 frenet2 old2 = (true, new2) ->
  map position (path_points new1) = map position (path_points new2) ->
  map pp_s (path_points new1) = map pp_s (path_points new2).
Proof.
  intros H1 H2. apply F2C_true_inv in H1, H2.
  apply chain_positions.
  - exact (F2C_loop_chain theta1 kappa1 rl1 _ _ _ chain_nil H1).
  - exact (F2C_loop_chain theta2 kappa2 rl2 _ _ _ chain_nil H2).
Qed.

Lemma sloped_frenet_converts (old : DiscretizedPath) :
  FrenetToCartesian Samples.theta Samples.curvature Samples.x_axis
    Samples.sloped_frenet old
  = (true, Samples.sloped_derived).
Proof.
  assert (E1 : Length (vsub (mkVec2d 0 0) (mkVec2d 1 0)) = 1).
  { unfold Length, vsub. simpl.
    replace ((0 - 1) * (0 - 1) + (0 - 0) * (0 - 0)) with 1 by lra.
    apply sqrt_1. }
  assert (E2 : Length (vsub (mkVec2d 1 0) (mkVec2d 2 1)) = sqrt 2).
  { unfold Length, vsub. simpl. f_equal. lra. }
  unfold FrenetToCartesian. simpl. line_range. cbn.
  rewrite E1, E2. replace (0 + 1) with 1 by lra. reflexivity.
Qed.

Lemma arc_length_from_positions_only_witness :
  map pp_s (path_points Samples.inside_derived)
  = map pp_s (path_points Samples.sloped_derived).
Proof.
  exact (arc_length_from_positions_only
           Samples.theta Samples.theta Samples.curvature Samples.curvature
           Samples.x_axis Samples.x_axis
           Samples.inside_frenet Samples.sloped_frenet
           (mkDiscretizedPath []) (mkDiscretizedPath []) _ _
           (inside_frenet_converts _) (sloped_frenet_converts _) eq_refl).
Defined.

(** ** Further properties of the container *)

Section SetterMore.

Variable calculate_theta : R -> R -> R -> R -> R.
Variable calculate_kappa : R -> R -> R -> R -> R -> R.

Local Abbreviation set_frenet := (set_frenet_path calculate_theta calculate_kappa).
Local Abbreviation F2C := (FrenetToCartesian calculate_theta calculate_kappa).

(** The two setters in terms of the conversions, with a line bound. *)
Lemma set_discretized_path_bound path st rl :
  reference_line_ st = Some rl ->
  set_discretized_path path st =
  (fst (CartesianToFrenet rl path (frenet_path_ st)),
   mkPathData path (snd (CartesianToFrenet rl path (frenet_path_ st))) (Some rl)).
Proof.
  intros Hrl. unfold set_discretized_path. rewrite Hrl. simpl.
  destruct (CartesianToFrenet rl path (frenet_path_ st)) as [[|] f]; simpl;
    unfold with_frenet_path, with_discretized_path; simpl; now rewrite Hrl.
Qed.

Lemma set_frenet_path_bound frenet_path st rl :
  reference_line_ st = Some rl ->
  set_frenet frenet_path st =
  (fst (F2C rl frenet_path (discretized_path_ st)),
   mkPathData (snd (F2C rl frenet_path (discretized_path_ st)))
              frenet_path (Some rl)).
Proof.
  intros Hrl. unfold set_frenet_path. rewrite Hrl. simpl.
  destruct (F2C rl frenet_path (discretized_path_ st)) as [[|] d]; simpl;
    unfold with_frenet_path, with_discretized_path; simpl; now rewrite Hrl.
Qed.

Lemma set_discretized_path_true path st st' :
  set_discretized_path path st = (true, st') ->
  exists rl frenet,
    reference_line_ st = Some rl /\
    CartesianToFrenet rl path (frenet_path_ st) = (true, frenet) /\
    st' = mkPathData path frenet (Some rl).
Proof.
  destruct (reference_line_ st) as [rl|] eqn:Hrl.
  - rewrite (set_discretized_path_bound path st rl Hrl).
    destruct (CartesianToFrenet rl path (frenet_path_ st)) as [b f] eqn:Hc.
    simpl. intros [= -> <-]. now exists rl, f.
  - rewrite (set_discretized_path_unbound path st Hrl). discriminate.
Qed.

Lemma set_frenet_path_true frenet_path st st' :
  set_frenet frenet_path st = (true, st') ->
  exists rl discretized,
    reference_line_ st = Some rl /\
    F2C rl frenet_path (discretized_path_ st) = (true, discretized) /\
    st' = mkPathData discretized frenet_path (Some rl).
Proof.
  destruct (reference_line_ st) as [rl|] eqn:Hrl.
  - rewrite (set_frenet_path_bound frenet_path st rl Hrl).
    destruct (F2C rl frenet_path (discretized_path_ st)) as [b d] eqn:Hc.
    simpl. intros [= -> <-]. now exists rl, d.
  - rewrite (set_frenet_path_unbound calculate_theta calculate_kappa
               frenet_path st Hrl).
    discriminate.
Qed.

End SetterMore.

Lemma set_inside_cart :
  set_discretized_path Samples.inside_cart Samples.bound
  = (true, mkPathData Samples.inside_cart Samples.inside_projected
                      (Some Samples.x_axis)).
Proof.
  rewrite (set_discretized_path_bound Samples.inside_cart Samples.bound
             Samples.x_axis eq_refl).
  now rewrite inside_cart_converts.
Qed.

Lemma set_inside_frenet :
  set_frenet_path Samples.theta Samples.curvature
    Samples.inside_frenet Samples.bound
  = (true, mkPathData Samples.inside_derived Samples.inside_frenet
                      (Some Samples.x_axis)).
Proof.
  rewrite (set_frenet_path_bound Samples.theta Samples.curvature
             Samples.inside_frenet Samples.bound Samples.x_axis eq_refl).
  now rewrite inside_frenet_converts.
Qed.

(** X9: when [set_discretized_path] returns [true], the container holds
    the input sequence itself (its arc lengths included, as supplied), the
    same handle, which is bound, and as Frenet sequence the point-wise
    projection of the input; the two stored sizes agree. *)
Theorem set_discretized_path_success
        (path : DiscretizedPath) (st st' : PathData) :
  set_discretized_path path st = (true, st') ->
  discretized_path_ st' = path /\
  reference_line_ st' = reference_line_ st /\
  (exists rl,
      reference_line_ st' = Some rl /\
      Forall2 (projected rl) (path_points path) (points (frenet_path_ st'))) /\
  sizes_agree st'.
Proof.
  intros H.
  destruct (set_discretized_path_true _ _ _ H) as (rl & f & Hrl & Hc & ->).
  apply C2F_true_inv in Hc. unfold sizes_agree, NumOfPoints. simpl.
  repeat split; [congruence | | ].
  - exists rl. split; [reflexivity|].
    exact (C2F_loop_projected rl _ [] [] _ (Forall2_nil _) Hc).
  - apply C2F_loop_length in Hc. simpl in Hc. congruence.
Qed.

Lemma set_discretized_path_success_witness :
  discretized_path_
    (mkPathData Samples.inside_cart Samples.inside_projected
                (Some Samples.x_axis)) = Samples.inside_cart /\
  sizes_agree (mkPathData Samples.inside_cart Samples.inside_projected
                          (Some Samples.x_axis)).
Proof.
  destruct (set_discretized_path_success _ _ _ set_inside_cart)
    as (Hd & _ & _ & Hs).
  split; [exact Hd | exact Hs].
Defined.

(** X10: when [set_frenet_path] returns [true], the container holds the
    input Frenet sequence itself, the same handle, which is bound, and as
    Cartesian sequence the point-wise conversion of the input with arc
    lengths accumulated from zero; the two stored sizes agree. *)
Theorem set_frenet_path_success
        (calculate_theta : R -> R -> R -> R -> R)
        (calculate_kappa : R -> R -> R -> R -> R -> R)
        (frenet_path : FrenetFramePath) (st st' : PathData) :
  set_frenet_path calculate_theta calculate_kappa frenet_path st
  = (true, st') ->
  frenet_path_ st' = frenet_path /\
  reference_line_ st' = reference_line_ st /\
  (exists rl,
      reference_line_ st' = Some rl /\
      Forall2 (converted calculate_theta calculate_kappa rl)
              (points frenet_path) (path_points (discretized_path_ st'))) /\
  arc_length_chain (path_points (discretized_path_ st')) /\
  sizes_agree st'.
Proof.
  intros H.
  destruct (set_frenet_path_true _ _ _ _ _ H) as (rl & d & Hrl & Hc & ->).
  apply F2C_true_inv in Hc. unfold sizes_agree, NumOfPoints. simpl.
  repeat split; [congruence | | | | ].
  - exists rl. split; [reflexivity|].
    exact (F2C_loop_converted calculate_theta calculate_kappa rl _ [] [] _
             (Forall2_nil _) Hc).
  - apply (F2C_loop_chain calculate_theta calculate_kappa rl _ _ _
             chain_nil Hc).
  - apply (F2C_loop_chain calculate_theta calculate_kappa rl _ _ _
             chain_nil Hc).
  - apply F2C_loop_length in Hc. simpl in Hc. exact Hc.
Qed.

Lemma set_frenet_path_success_witness :
  frenet_path_
    (mkPathData Samples.inside_derived Samples.inside_frenet
                (Some Samples.x_axis)) = Samples.inside_frenet /\
  sizes_agree (mkPathData Samples.inside_derived Samples.inside_frenet
                          (Some Samples.x_axis)).
Proof.
  destruct (set_frenet_path_success _ _ _ _ _ set_inside_frenet)
    as (Hf & _ & _ & _ & Hs).
  split; [exact Hf | exact Hs].
Defined.

(** X11: a set operation returns [true] exactly when a reference line is
    bound and its query succeeds on every point of the input; the prior
    content of the two sequences plays no part. *)
Theorem set_returns_true_iff
        (calculate_theta : R -> R -> R -> R -> R)
        (calculate_kappa : R -> R -> R -> R -> R -> R)
        (st : PathData) :
  (forall path,
      fst (set_discretized_path path st) = true <->
      exists rl, reference_line_ st = Some rl /\
                 Forall (fun p => ~ frenet_query_fails rl p) (path_points path)) /\
  (forall frenet_path,
      fst (set_frenet_path calculate_theta calculate_kappa frenet_path st)
      = true <->
      exists rl, reference_line_ st = Some rl /\
                 Forall (fun p => ~ cartesian_query_fails rl p)
                        (points frenet_path)).
Proof.
  split.
  - intros path. destruct (reference_line_ st) as [rl|] eqn:Hrl.
    + rewrite (set_discretized_path_bound path st rl Hrl). simpl.
      rewrite C2F_flag. split.
      * intros [out H]. exists rl. split; [reflexivity|].
        eapply C2F_loop_queries. exact H.
      * intros (rl' & [= <-] & H). now apply C2F_loop_succeeds.
    + rewrite (set_discretized_path_unbound path st Hrl). simpl. split.
      * discriminate.
      * intros (rl' & Hrl' & _). discriminate.
  - intros frenet_path. destruct (reference_line_ st) as [rl|] eqn:Hrl.
    + rewrite (set_frenet_path_bound calculate_theta calculate_kappa
                 frenet_path st rl Hrl).
      simpl. rewrite F2C_flag. split.
      * intros [out H]. exists rl. split; [reflexivity|].
        eapply F2C_loop_queries. exact H.
      * intros (rl' & [= <-] & H). now apply F2C_loop_succeeds.
    + rewrite (set_frenet_path_unbound calculate_theta calculate_kappa
                 frenet_path st Hrl).
      simpl. split.
      * discriminate.
      * intros (rl' & Hrl' & _). discriminate.
Qed.

Lemma set_returns_true_iff_witness :
  fst (set_discretized_path Samples.inside_cart Samples.bound) = true /\
  fst (set_frenet_path Samples.theta Samples.curvature
         Samples.inside_frenet Samples.bound) = true.
Proof.
  destruct (set_returns_true_iff Samples.theta Samples.curvature
              Samples.bound) as [Hc Hf].
  split.
  - apply Hc. exists Samples.x_axis. split; [reflexivity|].
    exact inside_cart_queries.
  - apply Hf. exists Samples.x_axis. split; [reflexivity|].
    exact inside_frenet_queries.
Defined.

(** X12: a successful set operation leaves nothing of the prior
    sequences: from two containers with the same handle, the same input
    leads to the same container. *)
Theorem successful_set_forgets_prior
        (calculate_theta : R -> R -> R -> R -> R)
        (calculate_kappa : R -> R -> R -> R -> R -> R)
        (st1 st2 st' : PathData) :
  reference_line_ st1 = reference_line_ st2 ->
  (forall path,
      set_discretized_path path st1 = (true, st') ->
      set_discretized_path path st2 = (true, st')) /\
  (forall frenet_path,
      set_frenet_path calculate_theta calculate_kappa frenet_path st1
      = (true, st') ->
      set_frenet_path calculate_theta calculate_kappa frenet_path st2
      = (true, st')).
Proof.
  intros Hsame. split.
  - intros path H.
    destruct (set_discretized_path_true _ _ _ H) as (rl & f & Hrl & Hc & ->).
    rewrite Hsame in Hrl.
    rewrite (set_discretized_path_bound path st2 rl Hrl).
    apply C2F_true_inv in Hc. unfold CartesianToFrenet. rewrite Hc.
    destruct f; reflexivity.
  - intros frenet_path H.
    destruct (set_frenet_path_true _ _ _ _ _ H) as (rl & d & Hrl & Hc & ->).
    rewrite Hsame in Hrl.
    rewrite (set_frenet_path_bound calculate_theta calculate_kappa
               frenet_path st2 rl Hrl).
    apply F2C_true_inv in Hc. unfold FrenetToCartesian. rewrite Hc.
    destruct d; reflexivity.
Qed.

Lemma successful_set_forgets_prior_witness :
  set_discretized_path Samples.inside_cart Samples.crowded
  = (true, mkPathData Samples.inside_cart Samples.inside_projected
                      (Some Samples.x_axis)).
Proof.
  exact (proj1 (successful_set_forgets_prior
                  Samples.theta Samples.curvature
                  Samples.bound Samples.crowded _ eq_refl)
               Samples.inside_cart set_inside_cart).
Defined.

(** X13: [Clear] also unbinds the reference line: it is
    [set_reference_line] with [nullptr], it is idempotent, and after it
    every set operation returns [false] and leaves the container empty
    and unbound, until a line is bound again. *)
Theorem clear_unbinds
        (calculate_theta : R -> R -> R -> R -> R)
        (calculate_kappa : R -> R -> R -> R -> R -> R)
        (st : PathData) :
  Clear st = set_reference_line None st /\
  Clear (Clear st) = Clear st /\
  Clear st = mkPathData (mkDiscretizedPath []) (mkFrenetFramePath []) None /\
  (forall path, set_discretized_path path (Clear st) = (false, Clear st)) /\
  (forall frenet_path,
      set_frenet_path calculate_theta calculate_kappa frenet_path (Clear st)
      = (false, Clear st)).
Proof.
  repeat split.
Qed.

(** X14: after a set operation rejected with a line bound, the two
    stored sizes agree only if the rejected input has as many points as
    the sequence kept on the other side; from a container just bound,
    whose sequences are empty, they never agree. *)
Theorem rejected_set_sizes
        (calculate_theta : R -> R -> R -> R -> R)
        (calculate_kappa : R -> R -> R -> R -> R -> R)
        (st : PathData) (rl : ReferenceLine) :
  reference_line_ st = Some rl ->
  (forall path,
      Exists (frenet_query_fails rl) (path_points path) ->
      (sizes_agree (snd (set_discretized_path path st)) <->
       NumOfPoints path = length (points (frenet_path_ st))) /\
      ~ sizes_agree
          (snd (set_discretized_path path (set_reference_line (Some rl) st)))) /\
  (forall frenet_path,
      Exists (cartesian_query_fails rl) (points frenet_path) ->
      (sizes_agree
         (snd (set_frenet_path calculate_theta calculate_kappa frenet_path st))
       <-> NumOfPoints (discretized_path_ st) = length (points frenet_path)) /\
      ~ sizes_agree
          (snd (set_frenet_path calculate_theta calculate_kappa frenet_path
                  (set_reference_line (Some rl) st)))).
Proof.
  intros Hrl. split.
  - intros path Hfail.
    rewrite (set_discretized_path_rejected path st rl Hrl Hfail).
    rewrite (set_discretized_path_rejected path
               (set_reference_line (Some rl) st) rl eq_refl Hfail).
    unfold sizes_agree, NumOfPoints. simpl. split; [reflexivity|].
    destruct Hfail; simpl; discriminate.
  - intros frenet_path Hfail.
    rewrite (set_frenet_path_rejected calculate_theta calculate_kappa
               frenet_path st rl Hrl Hfail).
    rewrite (set_frenet_path_rejected calculate_theta calculate_kappa
               frenet_path (set_reference_line (Some rl) st) rl eq_refl Hfail).
    unfold sizes_agree, NumOfPoints. simpl. split; [reflexivity|].
    destruct Hfail; simpl; discriminate.
Qed.

Lemma rejected_set_sizes_witness :
  ~ sizes_agree (snd (set_discretized_path Samples.leaving_cart Samples.bound)) /\
  ~ sizes_agree
      (snd (set_discretized_path Samples.leaving_cart
              (set_reference_line (Some Samples.x_axis) Samples.bound))).
Proof.
  destruct (proj1 (rejected_set_sizes Samples.theta Samples.curvature
                     Samples.bound Samples.x_axis eq_refl)
                  Samples.leaving_cart leaving_cart_fails) as [Hiff Hnot].
  split; [|exact Hnot].
  intros H. apply Hiff in H. discriminate H.
Defined.

(** ** Further properties of the lookup *)

(** X17: after a set operation that returned [true] on a non-empty
    input, the lookup by reference arc length yields, for every query
    value, one of the stored Cartesian points: the index it settles on is
    always in range.  [frenet_s] holds the [s] field of each stored
    Frenet point as the binary64 number it is. *)
Theorem lookup_after_successful_set
        (calculate_theta : R -> R -> R -> R -> R)
        (calculate_kappa : R -> R -> R -> R -> R -> R)
        (st st' : PathData) (ref_s : float) (frenet_s : list float) :
  length frenet_s = length (points (frenet_path_ st')) ->
  (forall path,
      set_discretized_path path st = (true, st') ->
      path_points path <> [] ->
      exists p,
        get_path_point_with_ref_s ref_s frenet_s (discretized_path_ st')
        = Some p /\
        In p (path_points path)) /\
  (forall frenet_path,
      set_frenet_path calculate_theta calculate_kappa frenet_path st
      = (true, st') ->
      points frenet_path <> [] ->
      exists p,
        get_path_point_with_ref_s ref_s frenet_s (discretized_path_ st')
        = Some p /\
        In p (path_points (discretized_path_ st'))).
Proof.
  intros Hs. split.
  - intros path H Hne.
    destruct (set_discretized_path_true _ _ _ H) as (rl & f & _ & Hc & ->).
    simpl in *.
    apply C2F_true_inv, C2F_loop_length in Hc. simpl in Hc.
    assert (Hf : frenet_s <> []).
    { intros ->. simpl in Hs. rewrite <- Hs in Hc.
      destruct (path_points path); [congruence | discriminate]. }
    destruct (get_path_point_with_ref_s_returns ref_s frenet_s path Hf)
      as [p Hp]; [unfold NumOfPoints; congruence|].
    exists p. split; [exact Hp|].
    exact (nth_error_In _ _ Hp).
  - intros frenet_path H Hne.
    destruct (set_frenet_path_true _ _ _ _ _ H) as (rl & d & _ & Hc & ->).
    simpl in *.
    apply F2C_true_inv, F2C_loop_length in Hc. simpl in Hc.
    assert (Hf : frenet_s <> []).
    { intros ->. simpl in Hs. destruct (points frenet_path);
        [congruence | discriminate]. }
    destruct (get_path_point_with_ref_s_returns ref_s frenet_s d Hf)
      as [p Hp]; [unfold NumOfPoints; congruence|].
    exists p. split; [exact Hp|].
    exact (nth_error_In _ _ Hp).
Qed.

Lemma lookup_after_successful_set_witness :
  exists p,
    get_path_point_with_ref_s 3%float [0%float; 1%float; 2%float]
                              Samples.inside_cart = Some p /\
    In p (path_points Samples.inside_cart).
Proof.
  apply (proj1 (lookup_after_successful_set
                  Samples.theta Samples.curvature Samples.bound
                  (mkPathData Samples.inside_cart Samples.inside_projected
                              (Some Samples.x_axis))
                  3%float [0%float; 1%float; 2%float] eq_refl)
               Samples.inside_cart set_inside_cart).
  discriminate.
Defined.

(** X18: reading the derived Cartesian sequence back into the container
    drops the lateral derivatives.  With a bound line whose
    Cartesian-to-Frenet projection undoes its Frenet-to-Cartesian one,
    after a successful [set_frenet_path] the call of
    [set_discretized_path] on the stored Cartesian sequence succeeds,
    keeps that sequence and replaces the stored Frenet sequence by the
    input with [dl] and [ddl] reset to zero. *)
Theorem set_discretized_path_after_set_frenet_path
        (calculate_theta : R -> R -> R -> R -> R)
        (calculate_kappa : R -> R -> R -> R -> R -> R)
        (frenet_path : FrenetFramePath) (st st1 : PathData)
        (rl : ReferenceLine) :
  reference_line_ st = Some rl ->
  frenet_undoes_cartesian rl ->
  set_frenet_path calculate_theta calculate_kappa frenet_path st
  = (true, st1) ->
  set_discretized_path (discretized_path_ st1) st1
  = (true,
     mkPathData (discretized_path_ st1)
                (mkFrenetFramePath
                   (map without_derivatives (points frenet_path)))
                (Some rl)).
Proof.
  intros Hrl Hinv H.
  destruct (set_frenet_path_true _ _ _ _ _ H) as (rl' & d & Hrl' & Hc & ->).
  assert (rl' = rl) by congruence. subst rl'. simpl.
  rewrite (set_discretized_path_bound d (mkPathData d frenet_path (Some rl))
             rl eq_refl).
  simpl. apply F2C_true_inv in Hc.
  pose proof (F2C_loop_converted calculate_theta calculate_kappa rl _ [] [] _
                (Forall2_nil _) Hc) as Hconv.
  unfold CartesianToFrenet.
  now rewrite (C2F_loop_back calculate_theta calculate_kappa rl _ Hinv _ []
                 Hconv).
Qed.

Lemma set_discretized_path_after_set_frenet_path_witness :
  set_discretized_path Samples.sloped_derived
    (mkPathData Samples.sloped_derived Samples.sloped_frenet
                (Some Samples.x_axis))
  = (true,
     mkPathData Samples.sloped_derived
                (mkFrenetFramePath
                   (map without_derivatives (points Samples.sloped_frenet)))
                (Some Samples.x_axis)).
Proof.
  refine (set_discretized_path_after_set_frenet_path
            Samples.theta Samples.curvature Samples.sloped_frenet
            Samples.bound
            (mkPathData Samples.sloped_derived Samples.sloped_frenet
                        (Some Samples.x_axis))
            Samples.x_axis eq_refl
            x_axis_frenet_undoes_cartesian _).
  rewrite (set_frenet_path_bound Samples.theta Samples.curvature
             Samples.sloped_frenet Samples.bound Samples.x_axis eq_refl).
  now rewrite sloped_frenet_converts.
Defined.

(** X19: reading the derived Frenet sequence back into the container
    replaces the arc lengths the caller supplied.  With a bound line
    whose Frenet-to-Cartesian projection undoes its Cartesian-to-Frenet
    one, after a successful [set_discretized_path] the call of
    [set_frenet_path] on the stored Frenet sequence succeeds, keeps that
    sequence, and stores a Cartesian sequence with the positions of the
    original input and arc lengths accumulated from zero. *)
Theorem set_frenet_path_after_set_discretized_path
        (calculate_theta : R -> R -> R -> R -> R)
        (calculate_kappa : R -> R -> R -> R -> R -> R)
        (path : DiscretizedPath) (st st1 : PathData) (rl : ReferenceLine) :
  reference_line_ st = Some rl ->
  cartesian_undoes_frenet rl ->
  set_discretized_path path st = (true, st1) ->
  exists st2,
    set_frenet_path calculate_theta calculate_kappa (frenet_path_ st1) st1
    = (true, st2) /\
    frenet_path_ st2 = frenet_path_ st1 /\
    reference_line_ st2 = Some rl /\
    map position (path_points (discretized_path_ st2))
    = map position (path_points path) /\
    arc_length_chain (path_points (discretized_path_ st2)).
Proof.
  intros Hrl Hinv H.
  destruct (set_discretized_path_true _ _ _ H) as (rl' & f & Hrl' & Hc & ->).
  assert (rl' = rl) by congruence. subst rl'. simpl.
  destruct (C2F_then_F2C calculate_theta calculate_kappa rl path _ f path
              Hinv Hc) as (new & Hnew & _ & Hpos & Hchain).
  exists (mkPathData new f (Some rl)).
  rewrite (set_frenet_path_bound calculate_theta calculate_kappa f
             (mkPathData path f (Some rl)) rl eq_refl).
  simpl. rewrite Hnew. simpl. auto.
Qed.

Lemma set_frenet_path_after_set_discretized_path_witness :
  exists st2,
    set_frenet_path Samples.theta Samples.curvature Samples.inside_projected
      (mkPathData Samples.inside_cart Samples.inside_projected
                  (Some Samples.x_axis))
    = (true, st2) /\
    frenet_path_ st2 = Samples.inside_projected /\
    reference_line_ st2 = Some Samples.x_axis /\
    map position (path_points (discretized_path_ st2))
    = map position (path_points Samples.inside_cart) /\
    arc_length_chain (path_points (discretized_path_ st2)).
Proof.
  exact (set_frenet_path_after_set_discretized_path
           Samples.theta Samples.curvature Samples.inside_cart
           Samples.bound _ Samples.x_axis eq_refl
           x_axis_cartesian_undoes_frenet set_inside_cart).
Defined.
